(** * Crowdfund: the settlement engine of the crowd-funding contract

    A shallow embedding of the Solidity contract [Crowdfund]
    (pragma ^0.8.20) and the properties its design document states about
    it.

    Modelling choices, all taken from the contract text:
    - [uint256] and [address] values are binary naturals ([N]); every
      [+], [++] and [-=] of the contract is the checked arithmetic of
      Solidity 0.8 and reverts with [Panic 0x11] outside [0, 2^256 - 1];
    - a Solidity [mapping] is a finite map read with the type's zero value
      as default ([campaigns[id]] of an unwritten slot is the all-zero
      campaign, whose [creator] is [address(0)]);
    - a function body runs in a frame holding the working storage, the
      emitted events and the value transfers made so far; [require] and a
      failed checked operation abort the body, and [transact] then throws
      the frame away, as the EVM does on [REVERT];
    - the low-level [call{value: amount}("")] is the environment's
      fund-transfer primitive: its boolean result, which depends on the
      recipient and on the contract's balance, is an input of the
      transaction ([payout_ok]). In [execute] the recipient does not call
      back into the contract; [run_re] lets it (the contract has no guard
      against that), and a transaction with calls back is shown to act on
      the storage as its calls do one after the other, so that the chains
      of [reachable] visit every storage the contract can be in;
    - [pledge] is the only [payable] function: the value sent is an
      argument of [pledge] and the other functions are called without
      value;
    - [block.timestamp] never decreases from one transaction to the next
      (see [reachable]). *)

From Stdlib Require Import NArith Lia.
From stdpp Require Import gmap strings list fin_maps.

Local Open Scope string_scope.
Local Open Scope N_scope.

(** ** Values *)

Definition MAX_UINT256 : N := 2 ^ 256 - 1.

(** ** Storage layout *)

Record Campaign := mkCampaign {
  creator : N;
  goal : N;
  pledged : N;
  startAt : N;
  endAt : N;
  claimed : bool;
  metadataURI : string
}.

Record Reward := mkReward {
  title : string;
  description : string;
  minimumContribution : N;
  quantityAvailable : N;
  claimedCount : N
}.

Record State := mkState {
  campaignCount : N;
  campaigns : gmap N Campaign;
  campaignRewards : gmap N (list Reward);
  pledgedAmounts : gmap N (gmap N N);
  totalContributed : gmap N N
}.

(** The value of a storage slot that was never written. *)
Definition zeroCampaign : Campaign := mkCampaign 0 0 0 0 0 false "".

(** The deployed contract: every slot is zero. *)
Definition genesis : State := mkState 0 ∅ ∅ ∅ ∅.

(** Reads of the four mappings. *)
Definition campaignAt (s : State) (id : N) : Campaign :=
  default zeroCampaign (campaigns s !! id).

Definition rewardsAt (s : State) (id : N) : list Reward :=
  default [] (campaignRewards s !! id).

Definition ledgerAt (s : State) (id : N) : gmap N N :=
  default ∅ (pledgedAmounts s !! id).

Definition pledgedAmountOf (s : State) (id user : N) : N :=
  default 0 (ledgerAt s id !! user).

Definition totalContributedOf (s : State) (user : N) : N :=
  default 0 (totalContributed s !! user).

(** Writes. *)
Definition set_campaignCount (n : N) (s : State) : State :=
  mkState n (campaigns s) (campaignRewards s) (pledgedAmounts s) (totalContributed s).

Definition set_campaign (id : N) (c : Campaign) (s : State) : State :=
  mkState (campaignCount s) (<[id := c]> (campaigns s)) (campaignRewards s)
          (pledgedAmounts s) (totalContributed s).

Definition set_rewards (id : N) (rs : list Reward) (s : State) : State :=
  mkState (campaignCount s) (campaigns s) (<[id := rs]> (campaignRewards s))
          (pledgedAmounts s) (totalContributed s).

Definition set_pledgedAmount (id user amount : N) (s : State) : State :=
  mkState (campaignCount s) (campaigns s) (campaignRewards s)
          (<[id := <[user := amount]> (ledgerAt s id)]> (pledgedAmounts s))
          (totalContributed s).

Definition set_totalContributed (user amount : N) (s : State) : State :=
  mkState (campaignCount s) (campaigns s) (campaignRewards s) (pledgedAmounts s)
          (<[user := amount]> (totalContributed s)).

Definition with_pledged (p : N) (c : Campaign) : Campaign :=
  mkCampaign (creator c) (goal c) p (startAt c) (endAt c) (claimed c) (metadataURI c).

Definition with_claimed (b : bool) (c : Campaign) : Campaign :=
  mkCampaign (creator c) (goal c) (pledged c) (startAt c) (endAt c) b (metadataURI c).

Definition with_claimedCount (n : N) (r : Reward) : Reward :=
  mkReward (title r) (description r) (minimumContribution r) (quantityAvailable r) n.

(** ** Events *)

Inductive Event :=
| CampaignCreated (id creator goal startAt endAt : N)
| Pledged (id contributor amount : N)
| Withdrawn (id amount : N)
| Refunded (id contributor amount : N)
| RewardClaimed (campaignId contributor rewardIndex : N).

(** ** Execution frames, reverts *)

Inductive Error :=
| Revert (reason : string)
| Panic (code : N).

Inductive Result (A : Type) :=
| Ok (a : A)
| Err (e : Error).
Arguments Ok {A} a.
Arguments Err {A} e.

(** The names the design document gives to the contract's revert reasons. *)
Definition InvalidGoal : Error := Revert "Goal must be > 0".
Definition InvalidWindow : Error := Revert "Start must be before end".
Definition WindowNotFuture_start : Error := Revert "Start must be now or future".
Definition WindowNotFuture_end : Error := Revert "End must be in the future".
Definition CampaignNotFound : Error := Revert "Campaign does not exist".
Definition NotCreator_addReward : Error := Revert "Only creator can add rewards".
Definition WindowAlreadyOpen : Error := Revert "Cannot add reward after campaign start".
Definition CampaignInactive : Error := Revert "Campaign inactive".
Definition ZeroAmount : Error := Revert "Must send ETH".
Definition BelowRewardMinimum : Error := Revert "Contribution below reward minimum".
Definition RewardSoldOut : Error := Revert "Reward sold out".
Definition NotCreator_withdraw : Error := Revert "Not creator".
Definition CampaignNotEnded : Error := Revert "Campaign not ended".
Definition GoalNotReached : Error := Revert "Goal not reached".
Definition AlreadySettled : Error := Revert "Already withdrawn".
Definition GoalReached : Error := Revert "Goal reached, cannot refund".
Definition NothingToRefund : Error := Revert "No contributions".
Definition TransferFailed_withdraw : Error := Revert "Transfer failed".
Definition TransferFailed_refund : Error := Revert "Refund failed".
Definition ArithmeticPanic : Error := Panic 17.

Definition WindowNotFuture (e : Error) : Prop :=
  e = WindowNotFuture_start ∨ e = WindowNotFuture_end.

Definition NotCreator (e : Error) : Prop :=
  e = NotCreator_addReward ∨ e = NotCreator_withdraw.

(** What a transaction sees of its environment. *)
Record Env := mkEnv {
  msg_sender : N;
  block_timestamp : N;
  payout_ok : bool
}.

Record Frame := mkFrame {
  storage : State;
  emitted : list Event;
  transfers : list (N * N)
}.

Definition M (A : Type) : Type := Frame → Result A * Frame.

Definition ret {A} (a : A) : M A := λ f, (Ok a, f).

Definition bind {A B} (m : M A) (k : A → M B) : M B :=
  λ f, match m f with
       | (Ok a, f') => k a f'
       | (Err e, f') => (Err e, f')
       end.

Declare Scope evm_scope.
Delimit Scope evm_scope with evm.
Notation "x <- m ;; k" := (bind m (λ x, k))
  (at level 100, m at next level, right associativity) : evm_scope.
Notation "m ;; k" := (bind m (λ _, k))
  (at level 100, right associativity) : evm_scope.
Local Open Scope evm_scope.

Definition revert {A} (e : Error) : M A := λ f, (Err e, f).

Definition require (cond : bool) (reason : string) : M unit :=
  if cond then ret tt else revert (Revert reason).

Definition sload {A} (read : State → A) : M A := λ f, (Ok (read (storage f)), f).

Definition sstore (write : State → State) : M unit :=
  λ f, (Ok tt, mkFrame (write (storage f)) (emitted f) (transfers f)).

Definition emit (e : Event) : M unit :=
  λ f, (Ok tt, mkFrame (storage f) (emitted f ++ [e]) (transfers f)).

Definition checked_add (a b : N) : M N :=
  if a + b <=? MAX_UINT256 then ret (a + b) else revert ArithmeticPanic.

Definition checked_sub (a b : N) : M N :=
  if b <=? a then ret (a - b) else revert ArithmeticPanic.

(** [to.call{value: amount}("")]: the environment answers; a successful
    call moves [amount] to [to]. *)
Definition call_value (env : Env) (to amount : N) : M bool :=
  λ f, if payout_ok env
       then (Ok true, mkFrame (storage f) (emitted f) (transfers f ++ [(to, amount)]))
       else (Ok false, f).

(** ** The contract's functions *)

Definition createCampaign (env : Env) (_goal _startAt _endAt : N)
    (_metadataURI : string) : M N :=
  require (0 <? _goal) "Goal must be > 0" ;;
  require (_startAt <? _endAt) "Start must be before end" ;;
  require (block_timestamp env <=? _startAt) "Start must be now or future" ;;
  require (block_timestamp env <? _endAt) "End must be in the future" ;;
  n <- sload campaignCount ;;
  n' <- checked_add n 1 ;;
  sstore (set_campaignCount n') ;;
  id <- sload campaignCount ;;
  sstore (set_campaign id
            (mkCampaign (msg_sender env) _goal 0 _startAt _endAt false _metadataURI)) ;;
  id <- sload campaignCount ;;
  emit (CampaignCreated id (msg_sender env) _goal _startAt _endAt) ;;
  sload campaignCount.

Definition addReward (env : Env) (_campaignId : N) (_title _description : string)
    (_minimumContribution _quantityAvailable : N) : M unit :=
  c <- sload (λ s, campaignAt s _campaignId) ;;
  require (negb (creator c =? 0)) "Campaign does not exist" ;;
  require (msg_sender env =? creator c) "Only creator can add rewards" ;;
  require (block_timestamp env <? startAt c) "Cannot add reward after campaign start" ;;
  rs <- sload (λ s, rewardsAt s _campaignId) ;;
  sstore (set_rewards _campaignId
            (rs ++ [mkReward _title _description _minimumContribution
                             _quantityAvailable 0])).

(** The branch of [pledge] taken when [_rewardIndex] designates a tier;
    an array access past the end is [Panic 0x32]. *)
Definition claimReward (env : Env) (msg_value _campaignId _rewardIndex : N) : M unit :=
  rs <- sload (λ s, rewardsAt s _campaignId) ;;
  match rs !! N.to_nat _rewardIndex with
  | Some r =>
      require (minimumContribution r <=? msg_value) "Contribution below reward minimum" ;;
      if 0 <? quantityAvailable r then
        require (claimedCount r <? quantityAvailable r) "Reward sold out" ;;
        n <- checked_add (claimedCount r) 1 ;;
        sstore (set_rewards _campaignId
                  (<[N.to_nat _rewardIndex := with_claimedCount n r]> rs)) ;;
        emit (RewardClaimed _campaignId (msg_sender env) _rewardIndex)
      else ret tt
  | None => revert (Panic 50)
  end.

(** [pledge] is [payable]: [msg_value] is the value sent with the call. *)
Definition pledge (env : Env) (msg_value _campaignId _rewardIndex : N) : M unit :=
  c <- sload (λ s, campaignAt s _campaignId) ;;
  require (negb (creator c =? 0)) "Campaign does not exist" ;;
  require ((startAt c <=? block_timestamp env) && (block_timestamp env <=? endAt c))
          "Campaign inactive" ;;
  require (0 <? msg_value) "Must send ETH" ;;
  len <- sload (λ s, N.of_nat (length (rewardsAt s _campaignId))) ;;
  (if _rewardIndex <? len then claimReward env msg_value _campaignId _rewardIndex
   else ret tt) ;;
  a <- sload (λ s, pledgedAmountOf s _campaignId (msg_sender env)) ;;
  a' <- checked_add a msg_value ;;
  sstore (set_pledgedAmount _campaignId (msg_sender env) a') ;;
  c <- sload (λ s, campaignAt s _campaignId) ;;
  p' <- checked_add (pledged c) msg_value ;;
  sstore (set_campaign _campaignId (with_pledged p' c)) ;;
  t <- sload (λ s, totalContributedOf s (msg_sender env)) ;;
  t' <- checked_add t msg_value ;;
  sstore (set_totalContributed (msg_sender env) t') ;;
  emit (Pledged _campaignId (msg_sender env) msg_value).

Definition withdraw (env : Env) (_campaignId : N) : M unit :=
  c <- sload (λ s, campaignAt s _campaignId) ;;
  require (negb (creator c =? 0)) "Campaign does not exist" ;;
  require (msg_sender env =? creator c) "Not creator" ;;
  require (endAt c <? block_timestamp env) "Campaign not ended" ;;
  require (goal c <=? pledged c) "Goal not reached" ;;
  require (negb (claimed c)) "Already withdrawn" ;;
  sstore (set_campaign _campaignId (with_claimed true c)) ;;
  c <- sload (λ s, campaignAt s _campaignId) ;;
  let amount := pledged c in
  sent <- call_value env (creator c) amount ;;
  require sent "Transfer failed" ;;
  emit (Withdrawn _campaignId amount).

Definition refund (env : Env) (_campaignId : N) : M unit :=
  c <- sload (λ s, campaignAt s _campaignId) ;;
  require (negb (creator c =? 0)) "Campaign does not exist" ;;
  require (endAt c <? block_timestamp env) "Campaign not ended" ;;
  require (pledged c <? goal c) "Goal reached, cannot refund" ;;
  bal <- sload (λ s, pledgedAmountOf s _campaignId (msg_sender env)) ;;
  require (0 <? bal) "No contributions" ;;
  sstore (set_pledgedAmount _campaignId (msg_sender env) 0) ;;
  t <- sload (λ s, totalContributedOf s (msg_sender env)) ;;
  t' <- checked_sub t bal ;;
  sstore (set_totalContributed (msg_sender env) t') ;;
  sent <- call_value env (msg_sender env) bal ;;
  require sent "Refund failed" ;;
  emit (Refunded _campaignId (msg_sender env) bal).

Definition getRewards (s : State) (_campaignId : N) : list Reward :=
  rewardsAt s _campaignId.

Definition getUserContribution (s : State) (_campaignId _user : N) : N :=
  pledgedAmountOf s _campaignId _user.

(** ** Transactions *)

Inductive Call :=
| CreateCampaign (_goal _startAt _endAt : N) (_metadataURI : string)
| AddReward (_campaignId : N) (_title _description : string)
            (_minimumContribution _quantityAvailable : N)
| Pledge (msg_value _campaignId _rewardIndex : N)
| Withdraw (_campaignId : N)
| Refund (_campaignId : N).

Record Receipt := mkReceipt {
  returned : option N;
  logs : list Event;
  payouts : list (N * N)
}.

(** A call either commits the frame of its body or, on a revert, leaves
    the storage it started from. *)
Definition transact {A} (out : A → option N) (body : M A) (s : State)
    : Result Receipt * State :=
  match body (mkFrame s [] []) with
  | (Ok a, f) => (Ok (mkReceipt (out a) (emitted f) (transfers f)), storage f)
  | (Err e, _) => (Err e, s)
  end.

Definition execute (env : Env) (call : Call) (s : State) : Result Receipt * State :=
  match call with
  | CreateCampaign g st en uri => transact Some (createCampaign env g st en uri) s
  | AddReward id t d m q => transact (λ _, None) (addReward env id t d m q) s
  | Pledge v id idx => transact (λ _, None) (pledge env v id idx) s
  | Withdraw id => transact (λ _, None) (withdraw env id) s
  | Refund id => transact (λ _, None) (refund env id) s
  end.

(** ** Histories

    A chain is the contract's storage together with the time of the last
    transaction and the record of every transaction applied so far (newest
    first) with its outcome. *)

Record Tx := mkTx {
  tx_env : Env;
  tx_call : Call
}.

Record Chain := mkChain {
  chain_state : State;
  chain_time : N;
  chain_history : list (Tx * Result Receipt)
}.

Definition deployed : Chain := mkChain genesis 0 [].

Definition apply_tx (tx : Tx) (c : Chain) : Chain :=
  let '(r, s') := execute (tx_env tx) (tx_call tx) (chain_state c) in
  mkChain s' (block_timestamp (tx_env tx)) ((tx, r) :: chain_history c).

(** A transaction the chain can accept next. *)
Definition admissible (c : Chain) (tx : Tx) : Prop :=
  chain_time c ≤ block_timestamp (tx_env tx).

Inductive reachable : Chain → Prop :=
| reach_deployed : reachable deployed
| reach_step c tx :
    reachable c → admissible c tx → reachable (apply_tx tx c).

Definition run (txs : list Tx) : Chain := foldl (λ c tx, apply_tx tx c) deployed txs.

(** Counting the successful transactions of a kind in a history. *)
Definition is_ok {A} (r : Result A) : bool :=
  match r with Ok _ => true | Err _ => false end.

Fixpoint count_success (p : Tx → bool) (h : list (Tx * Result Receipt)) : nat :=
  match h with
  | [] => 0
  | (tx, r) :: h' =>
      ((if p tx && is_ok r then 1 else 0) + count_success p h')%nat
  end.

Definition is_withdraw (id : N) (tx : Tx) : bool :=
  match tx_call tx with Withdraw id' => id' =? id | _ => false end.

Definition is_refund (id : N) (tx : Tx) : bool :=
  match tx_call tx with Refund id' => id' =? id | _ => false end.

Definition is_tier_pledge (id idx : N) (tx : Tx) : bool :=
  match tx_call tx with
  | Pledge _ id' idx' => (id' =? id) && (idx' =? idx)
  | _ => false
  end.

Definition withdrawals (id : N) (c : Chain) : nat :=
  count_success (is_withdraw id) (chain_history c).

Definition refunds (id : N) (c : Chain) : nat :=
  count_success (is_refund id) (chain_history c).

Definition tier_pledges (id idx : N) (c : Chain) : nat :=
  count_success (is_tier_pledge id idx) (chain_history c).

Definition is_create (tx : Tx) : bool :=
  match tx_call tx with CreateCampaign _ _ _ _ => true | _ => false end.

(** The identifiers returned by the successful [createCampaign] calls of a
    history, newest first. *)
Fixpoint created_ids (h : list (Tx * Result Receipt)) : list N :=
  match h with
  | [] => []
  | (tx, r) :: h' =>
      match r with
      | Ok rc => if is_create tx then option_list (returned rc) ++ created_ids h'
                 else created_ids h'
      | Err _ => created_ids h'
      end
  end.

(** The transfers made by the successful [withdraw] calls on one campaign,
    newest first. *)
Fixpoint withdraw_payouts (id : N) (h : list (Tx * Result Receipt)) : list (N * N) :=
  match h with
  | [] => []
  | (tx, r) :: h' =>
      match r with
      | Ok rc => if is_withdraw id tx then payouts rc ++ withdraw_payouts id h'
                 else withdraw_payouts id h'
      | Err _ => withdraw_payouts id h'
      end
  end.

(** Histories given as lists of transactions: [chronological] is what
    [reachable] asks of their timestamps. *)
Fixpoint chronological (t : N) (txs : list Tx) : bool :=
  match txs with
  | [] => true
  | tx :: txs' =>
      (t <=? block_timestamp (tx_env tx)) && chronological (block_timestamp (tx_env tx)) txs'
  end.

(** The sum of the amounts recorded in one campaign's ledger. *)
Definition ledger_sum (m : gmap N N) : N := map_fold (λ _ v acc, v + acc) 0 m.

(** The sum, over all campaigns, of one contributor's recorded amounts. *)
Definition contributions_of (user : N) (pa : gmap N (gmap N N)) : N :=
  map_fold (λ _ m acc, default 0 (m !! user) + acc) 0 pa.

(** ** Invariants of reachable chains *)

(** Identifiers above the counter were never used. *)
Definition unused_above_count (s : State) : Prop :=
  ∀ id, campaignCount s < id → campaigns s !! id = None.

(** The identifiers [n, n-1, ..., 1]. *)
Fixpoint ids_down (n : nat) : list N :=
  match n with
  | O => []
  | S k => N.of_nat (S k) :: ids_down k
  end.

(** Every tier with a limited quantity never has more claims than units. *)
Definition tiers_within_quantity (s : State) : Prop :=
  ∀ id i r, rewardsAt s id !! i = Some r →
    0 < quantityAvailable r → claimedCount r ≤ quantityAvailable r.

(** A contributor's global total is the sum of their recorded amounts. *)
Definition totals_match (s : State) : Prop :=
  ∀ user, totalContributedOf s user = contributions_of user (pledgedAmounts s).

(** What the history of a campaign says about its record. *)
Definition settlement_inv (c : Chain) (id : N) : Prop :=
  let cp := campaignAt (chain_state c) id in
  (claimed cp = true ↔ withdrawals id c = 1%nat) ∧
  (withdrawals id c ≤ 1)%nat ∧
  (claimed cp = true →
     creator cp ≠ 0 ∧ endAt cp < chain_time c ∧ goal cp ≤ pledged cp) ∧
  ((0 < refunds id c)%nat →
     creator cp ≠ 0 ∧ endAt cp < chain_time c ∧ pledged cp < goal cp) ∧
  withdraw_payouts id (chain_history c) =
    (if claimed cp then [(creator cp, pledged cp)] else []).

(** The claims of a tier are the successful pledges that named it; an
    index that was pledged with before any tier stood there can no longer
    receive one, the campaign having started. *)
Definition tier_inv (c : Chain) (id idx : N) : Prop :=
  match rewardsAt (chain_state c) id !! N.to_nat idx with
  | Some r =>
      0 < quantityAvailable r →
      claimedCount r = N.of_nat (tier_pledges id idx c) ∧
      claimedCount r ≤ quantityAvailable r
  | None =>
      (0 < tier_pledges id idx c)%nat →
      creator (campaignAt (chain_state c) id) ≠ 0 ∧
      startAt (campaignAt (chain_state c) id) ≤ chain_time c
  end.

(** ** The histories of the design document

    A campaign with goal 100 open from time 10 to time 1000, by [owner];
    [alice] contributes. In [history_goal_met] a tier with minimum 50 and
    one unit is added, the goal is met and the creator withdraws; in
    [history_goal_missed] the goal is missed and the contributor is
    refunded. *)

Definition owner : N := 7.
Definition alice : N := 8.

Definition call_at (sender time : N) (ok : bool) (call : Call) : Tx :=
  mkTx (mkEnv sender time ok) call.

Definition history_goal_met : list Tx :=
  [ call_at owner 0 true (CreateCampaign 100 10 1000 "ipfs://meta");
    call_at owner 1 true (AddReward 1 "R1" "Reward 1" 50 1);
    call_at alice 10 true (Pledge 60 1 0);
    call_at alice 11 true (Pledge 60 1 0);
    call_at alice 12 true (Pledge 60 1 999);
    call_at owner 1001 true (Withdraw 1) ].

(** The first history up to the moment the tier's only unit is taken. *)
Definition history_tier_sold_out : list Tx := take 3 history_goal_met.

(** The creator as a contributor of a campaign that misses its goal. *)
Definition history_creator_pledged : list Tx :=
  [ call_at owner 0 true (CreateCampaign 100 10 1000 "ipfs://meta");
    call_at owner 10 true (Pledge 30 1 999) ].

Definition history_goal_missed : list Tx :=
  [ call_at owner 0 true (CreateCampaign 100 10 1000 "ipfs://meta");
    call_at alice 10 true (Pledge 30 1 999);
    call_at alice 1001 true (Refund 1) ].

(** A storage whose campaign counter has reached the largest [uint256]. *)
Definition counter_exhausted : State := set_campaignCount MAX_UINT256 genesis.

(** ** Calls in closed form

    The outcome of the tier clause of [pledge] and the relation between a
    call, its receipt and the storage it commits; both are shown below to
    agree with [execute]. *)

(** The effect of the tier clause of [pledge] on a campaign's tiers:
    [Ok None] when no tier is touched, [Ok (Some rs')] when a limited tier
    is claimed. *)
Definition tier_outcome (msg_value _rewardIndex : N) (rs : list Reward)
    : Result (option (list Reward)) :=
  if _rewardIndex <? N.of_nat (length rs) then
    match rs !! N.to_nat _rewardIndex with
    | Some r =>
        if minimumContribution r <=? msg_value then
          if 0 <? quantityAvailable r then
            if claimedCount r <? quantityAvailable r then
              if claimedCount r + 1 <=? MAX_UINT256 then
                Ok (Some (<[N.to_nat _rewardIndex :=
                            with_claimedCount (claimedCount r + 1) r]> rs))
              else Err ArithmeticPanic
            else Err RewardSoldOut
          else Ok None
        else Err BelowRewardMinimum
    | None => Err (Panic 50)
    end
  else Ok None.

Definition after_tier (id : N) (o : option (list Reward)) (s : State) : State :=
  match o with Some rs' => set_rewards id rs' s | None => s end.

Definition tier_events (sender id idx : N) (o : option (list Reward)) : list Event :=
  match o with Some _ => [RewardClaimed id sender idx] | None => [] end.

Inductive commits (env : Env) (s : State) : Call → Receipt → State → Prop :=
| commits_createCampaign g st en uri :
    0 < g → st < en → block_timestamp env ≤ st →
    campaignCount s + 1 ≤ MAX_UINT256 →
    let id := campaignCount s + 1 in
    commits env s (CreateCampaign g st en uri)
      (mkReceipt (Some id) [CampaignCreated id (msg_sender env) g st en] [])
      (set_campaign id (mkCampaign (msg_sender env) g 0 st en false uri)
         (set_campaignCount id s))
| commits_addReward id t d m q :
    let c := campaignAt s id in
    creator c ≠ 0 → msg_sender env = creator c → block_timestamp env < startAt c →
    commits env s (AddReward id t d m q) (mkReceipt None [] [])
      (set_rewards id (rewardsAt s id ++ [mkReward t d m q 0]) s)
| commits_pledge v id idx o :
    let c := campaignAt s id in
    let a := msg_sender env in
    creator c ≠ 0 →
    startAt c ≤ block_timestamp env → block_timestamp env ≤ endAt c →
    0 < v →
    tier_outcome v idx (rewardsAt s id) = Ok o →
    pledgedAmountOf s id a + v ≤ MAX_UINT256 →
    pledged c + v ≤ MAX_UINT256 →
    totalContributedOf s a + v ≤ MAX_UINT256 →
    commits env s (Pledge v id idx)
      (mkReceipt None (tier_events a id idx o ++ [Pledged id a v]) [])
      (set_totalContributed a (totalContributedOf s a + v)
         (set_campaign id (with_pledged (pledged c + v) c)
            (set_pledgedAmount id a (pledgedAmountOf s id a + v)
               (after_tier id o s))))
| commits_withdraw id :
    let c := campaignAt s id in
    creator c ≠ 0 → msg_sender env = creator c →
    endAt c < block_timestamp env → goal c ≤ pledged c →
    claimed c = false → payout_ok env = true →
    commits env s (Withdraw id)
      (mkReceipt None [Withdrawn id (pledged c)] [(creator c, pledged c)])
      (set_campaign id (with_claimed true c) s)
| commits_refund id :
    let c := campaignAt s id in
    let a := msg_sender env in
    let bal := pledgedAmountOf s id a in
    creator c ≠ 0 → endAt c < block_timestamp env → pledged c < goal c →
    0 < bal → bal ≤ totalContributedOf s a → payout_ok env = true →
    commits env s (Refund id)
      (mkReceipt None [Refunded id a bal] [(a, bal)])
      (set_totalContributed a (totalContributedOf s a - bal)
         (set_pledgedAmount id a 0 s)).

(** ** More about histories *)

(** The chains a chain can grow into. *)
Inductive later_of (c : Chain) : Chain → Prop :=
| later_now : later_of c c
| later_step c' tx :
    later_of c c' → admissible c' tx → later_of c (apply_tx tx c').

Definition is_pledge (id : N) (tx : Tx) : bool :=
  match tx_call tx with Pledge _ id' _ => id' =? id | _ => false end.

Definition pledges (id : N) (c : Chain) : nat :=
  count_success (is_pledge id) (chain_history c).

(** The value that came with a call ([pledge] is the only payable
    function) and the value a receipt shows as sent. *)
Definition value_sent_with (call : Call) : N :=
  match call with Pledge v _ _ => v | _ => 0 end.

Definition sum_payouts (l : list (N * N)) : N :=
  foldr (λ p acc, p.2 + acc) 0 l.

(** All value received, and all value paid out, by the successful
    transactions of a history. *)
Fixpoint received (h : list (Tx * Result Receipt)) : N :=
  match h with
  | [] => 0
  | (tx, r) :: h' =>
      (if is_ok r then value_sent_with (tx_call tx) else 0) + received h'
  end.

Fixpoint paid_out (h : list (Tx * Result Receipt)) : N :=
  match h with
  | [] => 0
  | (tx, r) :: h' =>
      match r with
      | Ok rc => sum_payouts (payouts rc) + paid_out h'
      | Err _ => paid_out h'
      end
  end.

(** What the ledger still owes: the recorded amounts of the campaigns
    whose funds were not withdrawn. *)
Definition outstanding (s : State) : N :=
  map_fold (λ id m acc, (if claimed (campaignAt s id) then 0 else ledger_sum m) + acc)
           0 (pledgedAmounts s).

(** What one account pledged to one campaign, and what it was refunded
    from it, over a history. *)
Definition pledge_of (id user : N) (tx : Tx) : N :=
  match tx_call tx with
  | Pledge v id' _ =>
      if (id' =? id) && (msg_sender (tx_env tx) =? user) then v else 0
  | _ => 0
  end.

Definition is_refund_of (id user : N) (tx : Tx) : bool :=
  match tx_call tx with
  | Refund id' => (id' =? id) && (msg_sender (tx_env tx) =? user)
  | _ => false
  end.

Fixpoint pledged_by (id user : N) (h : list (Tx * Result Receipt)) : N :=
  match h with
  | [] => 0
  | (tx, r) :: h' =>
      (if is_ok r then pledge_of id user tx else 0) + pledged_by id user h'
  end.

Fixpoint refunded_to (id user : N) (h : list (Tx * Result Receipt)) : N :=
  match h with
  | [] => 0
  | (tx, r) :: h' =>
      match r with
      | Ok rc => (if is_refund_of id user tx then sum_payouts (payouts rc) else 0)
                 + refunded_to id user h'
      | Err _ => refunded_to id user h'
      end
  end.

(** * Calls back into the contract

    [creator.call{value: amount}("")] and [msg.sender.call{value: bal}("")]
    hand control to the account that is paid. The contract has no guard
    against it: before the call returns, the code of that account may call
    any function of the contract, directly or through other accounts, any
    number of times, at the same [block.timestamp]; a call made this way
    that pays out hands control on in turn.

    A [Reaction] is what the paid account does with the control it is
    given: it accepts the payment or not, and when it accepts, the calls
    made into the contract before it returns, in order, each with its
    sender and with the reaction of the account that call pays, if it pays.
    A call back that reverts is caught by its caller and changes nothing;
    an account that does not accept the payment (it reverts, or has no
    payable entry) undoes whatever it did, and the transfer returns
    [false]. *)

Inductive Reaction :=
| React (accepts : bool) (calls_back : list Callback)
with Callback :=
| Back (sender : N) (call : Call) (reaction : Reaction).

Definition accepts (r : Reaction) : bool := match r with React ok _ => ok end.

Definition calls_back (r : Reaction) : list Callback :=
  match r with React _ cs => cs end.

Definition callback_reaction (cb : Callback) : Reaction :=
  match cb with Back _ _ r => r end.

(** The frame of a running body after a call made back into the contract
    has returned: a successful one has written the storage and added its
    events and transfers; one that reverted has left no trace. *)
Definition absorb (r : Result Receipt * State) (f : Frame) : Frame :=
  match r with
  | (Ok rc, s) => mkFrame s (emitted f ++ logs rc) (transfers f ++ payouts rc)
  | (Err _, _) => f
  end.

(** [withdraw] and [refund] over the transfer primitive [send]. *)
Definition withdraw_re (send : N → N → M bool) (env : Env) (_campaignId : N) : M unit :=
  c <- sload (λ s, campaignAt s _campaignId) ;;
  require (negb (creator c =? 0)) "Campaign does not exist" ;;
  require (msg_sender env =? creator c) "Not creator" ;;
  require (endAt c <? block_timestamp env) "Campaign not ended" ;;
  require (goal c <=? pledged c) "Goal not reached" ;;
  require (negb (claimed c)) "Already withdrawn" ;;
  sstore (set_campaign _campaignId (with_claimed true c)) ;;
  c <- sload (λ s, campaignAt s _campaignId) ;;
  let amount := pledged c in
  sent <- send (creator c) amount ;;
  require sent "Transfer failed" ;;
  emit (Withdrawn _campaignId amount).

Definition refund_re (send : N → N → M bool) (env : Env) (_campaignId : N) : M unit :=
  c <- sload (λ s, campaignAt s _campaignId) ;;
  require (negb (creator c =? 0)) "Campaign does not exist" ;;
  require (endAt c <? block_timestamp env) "Campaign not ended" ;;
  require (pledged c <? goal c) "Goal reached, cannot refund" ;;
  bal <- sload (λ s, pledgedAmountOf s _campaignId (msg_sender env)) ;;
  require (0 <? bal) "No contributions" ;;
  sstore (set_pledgedAmount _campaignId (msg_sender env) 0) ;;
  t <- sload (λ s, totalContributedOf s (msg_sender env)) ;;
  t' <- checked_sub t bal ;;
  sstore (set_totalContributed (msg_sender env) t') ;;
  sent <- send (msg_sender env) bal ;;
  require sent "Refund failed" ;;
  emit (Refunded _campaignId (msg_sender env) bal).

(** A call of [sender] at time [now], the account it pays (if it pays)
    reacting with [r]. The value is credited first; the calls made back
    are then served one after the other on the storage as it stands. *)
Fixpoint run_re (now sender : N) (call : Call) (r : Reaction) (s : State) {struct r}
    : Result Receipt * State :=
  match r with
  | React ok cs =>
      let env := mkEnv sender now ok in
      let send : N → N → M bool := λ to amount f,
        if ok then
          (Ok true,
           (fix serve (cs : list Callback) (f : Frame) {struct cs} : Frame :=
              match cs with
              | [] => f
              | Back sender' call' r' :: cs' =>
                  serve cs' (absorb (run_re now sender' call' r' (storage f)) f)
              end) cs
             (mkFrame (storage f) (emitted f) (transfers f ++ [(to, amount)])))
        else (Ok false, f) in
      match call with
      | CreateCampaign g st en uri => transact Some (createCampaign env g st en uri) s
      | AddReward id t d m q => transact (λ _, None) (addReward env id t d m q) s
      | Pledge v id idx => transact (λ _, None) (pledge env v id idx) s
      | Withdraw id => transact (λ _, None) (withdraw_re send env id) s
      | Refund id => transact (λ _, None) (refund_re send env id) s
      end
  end.

(** The calls [cs] made back into the contract, served in order, and the
    transfer that lets them in: the two local definitions of [run_re]. *)
Definition serve (now : N) : list Callback → Frame → Frame :=
  fix serve (cs : list Callback) (f : Frame) {struct cs} : Frame :=
    match cs with
    | [] => f
    | Back sender' call' r' :: cs' =>
        serve cs' (absorb (run_re now sender' call' r' (storage f)) f)
    end.

Definition send_re (now : N) (ok : bool) (cs : list Callback) : N → N → M bool :=
  λ to amount f,
    if ok then
      (Ok true,
       serve now cs (mkFrame (storage f) (emitted f) (transfers f ++ [(to, amount)])))
    else (Ok false, f).

(** What the chain records of a call back is the call served alone. *)
Definition as_chain_step (now : N) (r : Reaction) : Prop :=
  ∀ sender call c,
    reachable c → chain_time c ≤ now →
    ∃ c', later_of c c' ∧ chain_time c' = now ∧
          chain_state c' = (run_re now sender call r (chain_state c)).2 ∧
          (∀ e s', run_re now sender call r (chain_state c) = (Err e, s') →
                   s' = chain_state c).

(** The storages the contract can be in, calls back included. *)
Inductive reachable_re : State → N → Prop :=
| reach_re_deployed : reachable_re genesis 0
| reach_re_step s t now sender call r :
    reachable_re s t → t ≤ now →
    reachable_re (run_re now sender call r s).2 now.

(** The creator of the first history, paid at the end, creates a second
    campaign and pledges to it before the payment returns. *)
Definition creator_calls_back : Reaction :=
  React true
    [ Back owner (CreateCampaign 50 1001 3000 "ipfs://second") (React true []);
      Back owner (Pledge 5 2 999) (React true []) ].

(** * The front end

    The parts of the web client that decide something from what the
    contract returns: the address book ([utils/userMapping.ts]), the
    status of a campaign as the pages show it ([app/page.tsx],
    [CampaignCard.tsx], [CampaignDetailModal.tsx]) and the client-side
    checks made before a pledge is sent. A [bigint] is an [N]; the current
    time is the whole number of seconds [Math.floor(Date.now() / 1000)]. *)

(** [s.toLowerCase()] on the ASCII letters. *)
Definition lower_ascii (a : Ascii.ascii) : Ascii.ascii :=
  let n := Ascii.N_of_ascii a in
  if (65 <=? n) && (n <=? 90) then Ascii.ascii_of_N (n + 32) else a.

Fixpoint toLowerCase (s : string) : string :=
  match s with
  | EmptyString => EmptyString
  | String a s' => String (lower_ascii a) (toLowerCase s')
  end.

(** [Number(b)] for a [bigint] below [2^1024]: the nearest double, ties to
    even; every value below [2^53] is kept as it is. *)
Definition Number (n : N) : N :=
  if n <? 2 ^ 53 then n
  else
    let e := N.log2 n - 52 in
    let q := N.shiftr n e in
    let r := n - N.shiftl q e in
    let half := N.shiftl 1 (e - 1) in
    let q' := if (half <? r) || ((r =? half) && N.odd q) then q + 1 else q in
    N.shiftl q' e.

Definition MAX_SAFE_INTEGER : N := 2 ^ 53 - 1.

Module UserMapping.

Record UserInfo := mkUserInfo {
  id : N;
  name : string;
  address : string;
  avatar : option string
}.

Definition user (i : N) (n a : string) : UserInfo := mkUserInfo i n a None.

Definition USER_MAPPING : list UserInfo :=
  [ user 1 "User 1" "0xf39Fd6e51aad88F6F4ce6aB8827279cffFb92266";
    user 2 "User 2" "0x70997970C51812dc3A010C7d01b50e0d17dc79C8";
    user 3 "User 3" "0x3C44CdDdB6a900fa2b585dd299e03d12FA4293BC";
    user 4 "User 4" "0x90F79bf6EB2c4f870365E785982E1f101E93b906";
    user 5 "User 5" "0x15d34AAf54267DB7D7c367839AAf71A00a2C6A65";
    user 6 "User 6" "0x9965507D1a55bcC2695C58ba16FB37d819B0A4dc";
    user 7 "User 7" "0x976EA74026E726554dB657fA54763abd0C3a0aa9";
    user 8 "User 8" "0x14dC79964da2C08b23698B3D3cc7Ca32193d9955";
    user 9 "User 9" "0x23618e81E3f5cdF7f54C3d65f7FBc0aBf5B21E8f";
    user 10 "User 10" "0xa0Ee7A142d267C1f36714E4a8F75612F20a79720";
    user 11 "User 11" "0xBcd4042DE499D14e55001CcbB24a551F3b954096";
    user 12 "User 12" "0x71bE63f3384f5fb98995898A86B02Fb2426c5788";
    user 13 "User 13" "0xFABB0ac9d68B0B445fB7357272Ff202C5651694a";
    user 14 "User 14" "0x1CBd3b2770909D4e10f157cABC84C7264073C9Ec";
    user 15 "User 15" "0xdF3e18d64BC6A983f673Ab319CCaE4f1a57C7097";
    user 16 "User 16" "0xcd3B766CCDd6AE721141F452C550Ca635964ce71";
    user 17 "User 17" "0x2546BcD3c84621e976D8185a91A922aE77ECEc30";
    user 18 "User 18" "0xbDA5747bFD65F08deb54cb465eB87D40e51B197E";
    user 19 "User 19" "0xdD2FD4581271e230360230F9337D5c0430Bf44C0";
    user 20 "User 20" "0x8626f6940E2eb28930eFb4CeF49B2d1F2C9C1199" ].

(** [USER_MAPPING.find(user => user.address === address) || null], after
    the guard [if (!address) return null]. *)
Definition getUserByAddress (addr : string) : option UserInfo :=
  if String.eqb addr "" then None
  else List.find (λ u, String.eqb (address u) addr) USER_MAPPING.

Definition getUserDisplayName (addr : string) : string :=
  match getUserByAddress addr with
  | Some u => name u
  | None => "Unknown"
  end.

Definition getUserId (addr : string) : N :=
  match getUserByAddress addr with
  | Some u => id u
  | None => 0
  end.

Definition isKnownUser (addr : string) : bool :=
  match getUserByAddress addr with
  | Some _ => true
  | None => false
  end.

Definition getAllUsers : list UserInfo := USER_MAPPING.

End UserMapping.

Module Frontend.

(** The [Campaign] of [types.ts], as [loadCampaigns] fills it from
    [contract.campaigns(i)]. *)
Record Campaign := mkCampaign {
  id : N;
  creator : string;
  goal : N;
  pledged : N;
  startAt : N;
  endAt : N;
  claimed : bool;
  metadataURI : string
}.

Record UIUserContribution := mkUIUserContribution {
  campaignId : N;
  campaign : option Campaign;
  amount : N;
  refunded : option bool
}.

(** [loadCampaigns]: what is shown as pledged, given the value remembered
    for the campaign in [lastKnownPledged] (if any); the remembered value
    is first replaced by a non-zero [pledged]. *)
Definition effectivePledged (pledged : N) (claimed : bool) (lastKnown : option N) : N :=
  let newLastKnown :=
    if negb (pledged =? 0) && (0 <? pledged) then Some pledged else lastKnown in
  match newLastKnown with
  | Some k => if (pledged =? 0) && claimed && negb (k =? 0) && (0 <? k) then k else pledged
  | None => pledged
  end.

(** [app/page.tsx]. *)
Definition getCampaignStatus (campaign : Campaign) (time : N) : string :=
  if time <? Number (startAt campaign) then "upcoming"
  else if time <? Number (endAt campaign) then "active"
  else if goal campaign <=? pledged campaign then "success"
  else "failed".

Definition getCreatorStatus (campaign : Campaign) (time : N) : string :=
  if claimed campaign then "claimed" else getCampaignStatus campaign time.

Definition getContributorStatus (entry : UIUserContribution) (time : N) : string :=
  match campaign entry with
  | None => "failed"
  | Some c =>
      if claimed c then "done"
      else
        let base := getCampaignStatus c time in
        if String.eqb base "failed" && default false (refunded entry) then "refunded"
        else base
  end.

(** [CampaignCard.tsx] and [CampaignDetailModal.tsx]. *)
Definition isNotStarted (campaign : Campaign) (currentTime : N) : bool :=
  currentTime <? Number (startAt campaign).

Definition isActive (campaign : Campaign) (currentTime : N) : bool :=
  (Number (startAt campaign) <=? currentTime) && (currentTime <=? Number (endAt campaign)).

Definition isEnded (campaign : Campaign) (currentTime : N) : bool :=
  Number (endAt campaign) <? currentTime.

Definition isGoalMet (campaign : Campaign) : bool :=
  goal campaign <=? pledged campaign.

Definition getStatusBadge (campaign : Campaign) (currentTime : N) : string :=
  if isNotStarted campaign currentTime then "Starting Soon"
  else if isActive campaign currentTime then "Active"
  else if isEnded campaign currentTime then
    if isGoalMet campaign then "Goal Met" else "Goal Not Met"
  else "Unknown".

(** [handlePledge]: the checks made on the tiers the client holds before
    the transaction is sent, and the index that is sent; [selectedReward]
    is [-1] when no tier is chosen. The result is the message of the error
    thrown ([inl]) or the index passed to [pledge] ([inr]). *)
Definition handlePledge_rewardIndex (amount : N) (selectedReward : Z)
    (rewards : list Reward) : string + N :=
  let thrown :=
    if (0 <=? selectedReward)%Z then
      match rewards !! Z.to_nat selectedReward with
      | Some r =>
          if amount <? minimumContribution r
          then Some "Contribution below reward minimum"
          else if (0 <? quantityAvailable r) && (quantityAvailable r <=? claimedCount r)
          then Some "Reward sold out"
          else None
      | None => None
      end
    else None in
  match thrown with
  | Some message => inl message
  | None => inr (if (0 <=? selectedReward)%Z then Z.to_N selectedReward
                 else MAX_SAFE_INTEGER)
  end.

(** [userAddress && typeof userAddress === 'string' &&
    userAddress.toLowerCase() === campaign.creator.toLowerCase()]. *)
Definition isCreator (userAddress : option string) (campaign : Campaign) : bool :=
  match userAddress with
  | Some a =>
      negb (String.eqb a "")
      && String.eqb (toLowerCase a) (toLowerCase (creator campaign))
  | None => false
  end.

(** The conditions under which [CampaignDetailModal] shows its "Withdraw
    Funds" and its "Refund" button. *)
Definition withdrawButton (isCreator : bool) (campaign : Campaign) (currentTime : N) : bool :=
  isCreator && isEnded campaign currentTime && isGoalMet campaign
  && negb (claimed campaign).

Definition refundButton (isCreator : bool) (campaign : Campaign) (currentTime : N)
    (userContribution : N) : bool :=
  negb isCreator && isEnded campaign currentTime && negb (isGoalMet campaign)
  && (0 <? userContribution).

End Frontend.

(** The campaign the client holds after reading [campaigns(i)] from the
    storage [s]; [checksum] renders an address as the client library
    does. *)
Definition campaign_view (checksum : N → string) (s : State) (i : N)
    (lastKnown : option N) : Frontend.Campaign :=
  let c := campaignAt s i in
  Frontend.mkCampaign i (checksum (creator c)) (goal c)
    (Frontend.effectivePledged (pledged c) (claimed c) lastKnown)
    (startAt c) (endAt c) (claimed c) (metadataURI c).

(** * Proofs *)

(** ** Reading what was written *)

Section ReadWrite.
Context (s : State).

Lemma campaignAt_set_campaign id c id' :
  campaignAt (set_campaign id c s) id' = if decide (id = id') then c else campaignAt s id'.
Proof.
  unfold campaignAt, set_campaign; simpl.
  rewrite lookup_insert. by case_decide.
Qed.

Lemma rewardsAt_set_rewards id rs id' :
  rewardsAt (set_rewards id rs s) id' = if decide (id = id') then rs else rewardsAt s id'.
Proof.
  unfold rewardsAt, set_rewards; simpl.
  rewrite lookup_insert. by case_decide.
Qed.

Lemma ledgerAt_set_pledgedAmount id user amount id' :
  ledgerAt (set_pledgedAmount id user amount s) id' =
  if decide (id = id') then <[user := amount]> (ledgerAt s id) else ledgerAt s id'.
Proof.
  unfold ledgerAt at 1. unfold set_pledgedAmount; simpl.
  rewrite lookup_insert. by case_decide.
Qed.

Lemma pledgedAmountOf_set_pledgedAmount id user amount id' user' :
  pledgedAmountOf (set_pledgedAmount id user amount s) id' user' =
  if decide (id = id' ∧ user = user') then amount else pledgedAmountOf s id' user'.
Proof.
  unfold pledgedAmountOf. rewrite ledgerAt_set_pledgedAmount.
  destruct (decide (id = id' ∧ user = user')) as [[-> ->]|Hne].
  - destruct (decide (id' = id')); [|done]. by rewrite lookup_insert_eq.
  - destruct (decide (id = id')) as [->|]; [|done].
    rewrite lookup_insert_ne; [done|]. intros ->. by apply Hne.
Qed.

Lemma totalContributedOf_set_totalContributed user amount user' :
  totalContributedOf (set_totalContributed user amount s) user' =
  if decide (user = user') then amount else totalContributedOf s user'.
Proof.
  unfold totalContributedOf, set_totalContributed; simpl.
  rewrite lookup_insert. by case_decide.
Qed.

Lemma campaignAt_set_campaign_eq id c :
  campaignAt (set_campaign id c s) id = c.
Proof. rewrite campaignAt_set_campaign. by destruct (decide (id = id)). Qed.

Lemma campaignAt_set_campaign_ne id c id' :
  id ≠ id' → campaignAt (set_campaign id c s) id' = campaignAt s id'.
Proof.
  intros. rewrite campaignAt_set_campaign. by destruct (decide (id = id')).
Qed.

Lemma rewardsAt_set_rewards_ne id rs id' :
  id ≠ id' → rewardsAt (set_rewards id rs s) id' = rewardsAt s id'.
Proof.
  intros. rewrite rewardsAt_set_rewards. by destruct (decide (id = id')).
Qed.

Lemma rewardsAt_set_rewards_eq id rs :
  rewardsAt (set_rewards id rs s) id = rs.
Proof. rewrite rewardsAt_set_rewards. by destruct (decide (id = id)). Qed.

Lemma pledgedAmountOf_set_pledgedAmount_eq id user amount :
  pledgedAmountOf (set_pledgedAmount id user amount s) id user = amount.
Proof.
  rewrite pledgedAmountOf_set_pledgedAmount.
  destruct (decide (id = id ∧ user = user)) as [|Hne]; [done|].
  by destruct Hne.
Qed.

Lemma totalContributedOf_set_totalContributed_eq user amount :
  totalContributedOf (set_totalContributed user amount s) user = amount.
Proof.
  rewrite totalContributedOf_set_totalContributed.
  by destruct (decide (user = user)).
Qed.

(** A write to one slot leaves the other slots as they were. *)
Lemma campaignAt_set_campaignCount n id' :
  campaignAt (set_campaignCount n s) id' = campaignAt s id'.
Proof. reflexivity. Qed.

Lemma campaignAt_set_rewards id rs id' :
  campaignAt (set_rewards id rs s) id' = campaignAt s id'.
Proof. reflexivity. Qed.

Lemma campaignAt_set_pledgedAmount id user amount id' :
  campaignAt (set_pledgedAmount id user amount s) id' = campaignAt s id'.
Proof. reflexivity. Qed.

Lemma campaignAt_set_totalContributed user amount id' :
  campaignAt (set_totalContributed user amount s) id' = campaignAt s id'.
Proof. reflexivity. Qed.

Lemma rewardsAt_set_campaignCount n id' :
  rewardsAt (set_campaignCount n s) id' = rewardsAt s id'.
Proof. reflexivity. Qed.

Lemma rewardsAt_set_campaign id c id' :
  rewardsAt (set_campaign id c s) id' = rewardsAt s id'.
Proof. reflexivity. Qed.

Lemma rewardsAt_set_pledgedAmount id user amount id' :
  rewardsAt (set_pledgedAmount id user amount s) id' = rewardsAt s id'.
Proof. reflexivity. Qed.

Lemma rewardsAt_set_totalContributed user amount id' :
  rewardsAt (set_totalContributed user amount s) id' = rewardsAt s id'.
Proof. reflexivity. Qed.

Lemma ledgerAt_set_campaignCount n id' :
  ledgerAt (set_campaignCount n s) id' = ledgerAt s id'.
Proof. reflexivity. Qed.

Lemma ledgerAt_set_campaign id c id' :
  ledgerAt (set_campaign id c s) id' = ledgerAt s id'.
Proof. reflexivity. Qed.

Lemma ledgerAt_set_rewards id rs id' :
  ledgerAt (set_rewards id rs s) id' = ledgerAt s id'.
Proof. reflexivity. Qed.

Lemma ledgerAt_set_totalContributed user amount id' :
  ledgerAt (set_totalContributed user amount s) id' = ledgerAt s id'.
Proof. reflexivity. Qed.

Lemma pledgedAmountOf_set_campaignCount n id' user' :
  pledgedAmountOf (set_campaignCount n s) id' user' = pledgedAmountOf s id' user'.
Proof. reflexivity. Qed.

Lemma pledgedAmountOf_set_campaign id c id' user' :
  pledgedAmountOf (set_campaign id c s) id' user' = pledgedAmountOf s id' user'.
Proof. reflexivity. Qed.

Lemma pledgedAmountOf_set_rewards id rs id' user' :
  pledgedAmountOf (set_rewards id rs s) id' user' = pledgedAmountOf s id' user'.
Proof. reflexivity. Qed.

Lemma pledgedAmountOf_set_totalContributed user amount id' user' :
  pledgedAmountOf (set_totalContributed user amount s) id' user' = pledgedAmountOf s id' user'.
Proof. reflexivity. Qed.

Lemma totalContributedOf_set_campaignCount n user' :
  totalContributedOf (set_campaignCount n s) user' = totalContributedOf s user'.
Proof. reflexivity. Qed.

Lemma totalContributedOf_set_campaign id c user' :
  totalContributedOf (set_campaign id c s) user' = totalContributedOf s user'.
Proof. reflexivity. Qed.

Lemma totalContributedOf_set_rewards id rs user' :
  totalContributedOf (set_rewards id rs s) user' = totalContributedOf s user'.
Proof. reflexivity. Qed.

Lemma totalContributedOf_set_pledgedAmount id user amount user' :
  totalContributedOf (set_pledgedAmount id user amount s) user' = totalContributedOf s user'.
Proof. reflexivity. Qed.

Lemma campaignCount_set_campaign id c  :
  campaignCount (set_campaign id c s) = campaignCount s.
Proof. reflexivity. Qed.

Lemma campaignCount_set_rewards id rs  :
  campaignCount (set_rewards id rs s) = campaignCount s.
Proof. reflexivity. Qed.

Lemma campaignCount_set_pledgedAmount id user amount  :
  campaignCount (set_pledgedAmount id user amount s) = campaignCount s.
Proof. reflexivity. Qed.

Lemma campaignCount_set_totalContributed user amount  :
  campaignCount (set_totalContributed user amount s) = campaignCount s.
Proof. reflexivity. Qed.

Lemma campaignCount_set_campaignCount n :
  campaignCount (set_campaignCount n s) = n.
Proof. reflexivity. Qed.

End ReadWrite.

Create Rewrite HintDb slots.
#[global] Hint Rewrite campaignAt_set_campaignCount
  campaignAt_set_rewards
  campaignAt_set_pledgedAmount
  campaignAt_set_totalContributed
  rewardsAt_set_campaignCount
  rewardsAt_set_campaign
  rewardsAt_set_pledgedAmount
  rewardsAt_set_totalContributed
  ledgerAt_set_campaignCount
  ledgerAt_set_campaign
  ledgerAt_set_rewards
  ledgerAt_set_totalContributed
  pledgedAmountOf_set_campaignCount
  pledgedAmountOf_set_campaign
  pledgedAmountOf_set_rewards
  pledgedAmountOf_set_totalContributed
  totalContributedOf_set_campaignCount
  totalContributedOf_set_campaign
  totalContributedOf_set_rewards
  totalContributedOf_set_pledgedAmount
  campaignCount_set_campaign
  campaignCount_set_rewards
  campaignCount_set_pledgedAmount
  campaignCount_set_totalContributed
  campaignCount_set_campaignCount campaignAt_set_campaign_eq
  rewardsAt_set_rewards_eq pledgedAmountOf_set_pledgedAmount_eq
  totalContributedOf_set_totalContributed_eq : slots.

(** ** What each call does, in closed form *)

(** The tier clause of [pledge] writes to the tiers only. *)
Lemma campaignCount_after_tier id o s :
  campaignCount (after_tier id o s) = campaignCount s.
Proof. by destruct o. Qed.

Lemma campaigns_after_tier id o s : campaigns (after_tier id o s) = campaigns s.
Proof. by destruct o. Qed.

Lemma pledgedAmounts_after_tier id o s :
  pledgedAmounts (after_tier id o s) = pledgedAmounts s.
Proof. by destruct o. Qed.

Lemma totalContributed_after_tier id o s :
  totalContributed (after_tier id o s) = totalContributed s.
Proof. by destruct o. Qed.

Lemma campaignAt_after_tier id o s id' :
  campaignAt (after_tier id o s) id' = campaignAt s id'.
Proof. by destruct o. Qed.

Lemma ledgerAt_after_tier id o s id' :
  ledgerAt (after_tier id o s) id' = ledgerAt s id'.
Proof. by destruct o. Qed.

Lemma pledgedAmountOf_after_tier id o s id' user :
  pledgedAmountOf (after_tier id o s) id' user = pledgedAmountOf s id' user.
Proof. by destruct o. Qed.

Lemma totalContributedOf_after_tier id o s user :
  totalContributedOf (after_tier id o s) user = totalContributedOf s user.
Proof. by destruct o. Qed.

Lemma rewardsAt_after_tier_ne id o s id' :
  id ≠ id' → rewardsAt (after_tier id o s) id' = rewardsAt s id'.
Proof.
  intros Hne. destruct o; [|done]. simpl.
  rewrite rewardsAt_set_rewards. by destruct (decide (id = id')).
Qed.

#[global] Hint Rewrite campaignCount_after_tier campaigns_after_tier
  pledgedAmounts_after_tier totalContributed_after_tier campaignAt_after_tier
  ledgerAt_after_tier pledgedAmountOf_after_tier totalContributedOf_after_tier
  : slots.

Ltac run_body :=
  unfold execute, transact, createCampaign, addReward, pledge, claimReward,
    withdraw, refund, bind, require, sload, sstore, emit, checked_add,
    checked_sub, call_value, revert, ret; simpl.

Ltac other_slots := autorewrite with slots.

Ltac other_slots_hyps := autorewrite with slots in *.

Ltac split_if :=
  match goal with
  | |- context [if negb ?b then _ else _] =>
      destruct b eqn:?; simpl; other_slots; try done;
      try (other_slots_hyps; congruence)
  | |- context [if ?b then _ else _] =>
      destruct b eqn:?; simpl; other_slots; try done;
      try (other_slots_hyps; congruence)
  end.

Lemma execute_createCampaign env g st en uri s :
  execute env (CreateCampaign g st en uri) s =
  if negb (0 <? g) then (Err InvalidGoal, s)
  else if negb (st <? en) then (Err InvalidWindow, s)
  else if negb (block_timestamp env <=? st) then (Err WindowNotFuture_start, s)
  else if negb (block_timestamp env <? en) then (Err WindowNotFuture_end, s)
  else if negb (campaignCount s + 1 <=? MAX_UINT256) then (Err ArithmeticPanic, s)
  else
    let id := campaignCount s + 1 in
    (Ok (mkReceipt (Some id) [CampaignCreated id (msg_sender env) g st en] []),
     set_campaign id (mkCampaign (msg_sender env) g 0 st en false uri)
       (set_campaignCount id s)).
Proof.
  run_body. repeat split_if.
Qed.

Lemma execute_addReward env id t d m q s :
  execute env (AddReward id t d m q) s =
  let c := campaignAt s id in
  if creator c =? 0 then (Err CampaignNotFound, s)
  else if negb (msg_sender env =? creator c) then (Err NotCreator_addReward, s)
  else if negb (block_timestamp env <? startAt c) then (Err WindowAlreadyOpen, s)
  else (Ok (mkReceipt None [] []),
        set_rewards id (rewardsAt s id ++ [mkReward t d m q 0]) s).
Proof.
  run_body. repeat split_if.
Qed.

Lemma execute_withdraw env id s :
  execute env (Withdraw id) s =
  let c := campaignAt s id in
  if creator c =? 0 then (Err CampaignNotFound, s)
  else if negb (msg_sender env =? creator c) then (Err NotCreator_withdraw, s)
  else if negb (endAt c <? block_timestamp env) then (Err CampaignNotEnded, s)
  else if negb (goal c <=? pledged c) then (Err GoalNotReached, s)
  else if claimed c then (Err AlreadySettled, s)
  else if negb (payout_ok env) then (Err TransferFailed_withdraw, s)
  else (Ok (mkReceipt None [Withdrawn id (pledged c)] [(creator c, pledged c)]),
        set_campaign id (with_claimed true c) s).
Proof.
  run_body. repeat split_if.
Qed.

Lemma execute_refund env id s :
  execute env (Refund id) s =
  let c := campaignAt s id in
  let bal := pledgedAmountOf s id (msg_sender env) in
  if creator c =? 0 then (Err CampaignNotFound, s)
  else if negb (endAt c <? block_timestamp env) then (Err CampaignNotEnded, s)
  else if negb (pledged c <? goal c) then (Err GoalReached, s)
  else if negb (0 <? bal) then (Err NothingToRefund, s)
  else if negb (bal <=? totalContributedOf s (msg_sender env)) then (Err ArithmeticPanic, s)
  else if negb (payout_ok env) then (Err TransferFailed_refund, s)
  else (Ok (mkReceipt None [Refunded id (msg_sender env) bal] [(msg_sender env, bal)]),
        set_totalContributed (msg_sender env)
          (totalContributedOf s (msg_sender env) - bal)
          (set_pledgedAmount id (msg_sender env) 0 s)).
Proof.
  run_body. repeat split_if.
Qed.

Lemma execute_pledge env v id idx s :
  execute env (Pledge v id idx) s =
  let c := campaignAt s id in
  let a := msg_sender env in
  if creator c =? 0 then (Err CampaignNotFound, s)
  else if negb ((startAt c <=? block_timestamp env) && (block_timestamp env <=? endAt c))
  then (Err CampaignInactive, s)
  else if negb (0 <? v) then (Err ZeroAmount, s)
  else
    match tier_outcome v idx (rewardsAt s id) with
    | Err e => (Err e, s)
    | Ok o =>
        if negb (pledgedAmountOf s id a + v <=? MAX_UINT256) then (Err ArithmeticPanic, s)
        else if negb (pledged c + v <=? MAX_UINT256) then (Err ArithmeticPanic, s)
        else if negb (totalContributedOf s a + v <=? MAX_UINT256)
        then (Err ArithmeticPanic, s)
        else
          (Ok (mkReceipt None (tier_events a id idx o ++ [Pledged id a v]) []),
           set_totalContributed a (totalContributedOf s a + v)
             (set_campaign id (with_pledged (pledged c + v) c)
                (set_pledgedAmount id a (pledgedAmountOf s id a + v)
                   (after_tier id o s))))
    end.
Proof.
  run_body. unfold tier_outcome, after_tier, tier_events.
  destruct (creator (campaignAt s id) =? 0); simpl; [done|].
  destruct (startAt (campaignAt s id) <=? block_timestamp env); simpl; [|done].
  destruct (block_timestamp env <=? endAt (campaignAt s id)); simpl; [|done].
  destruct (0 <? v); simpl; [|done].
  destruct (idx <? N.of_nat (length (rewardsAt s id))); simpl.
  - destruct (rewardsAt s id !! N.to_nat idx) as [r|]; simpl; [|done].
    destruct (minimumContribution r <=? v); simpl; [|done].
    destruct (0 <? quantityAvailable r); simpl.
    + destruct (claimedCount r <? quantityAvailable r); simpl; [|done].
      destruct (claimedCount r + 1 <=? MAX_UINT256); simpl; [|done].
      other_slots. repeat split_if.
    + repeat split_if.
  - repeat split_if.
Qed.

(** ** Successful calls and the transition relation *)

Ltac take_branch :=
  repeat match goal with
  | H : ?b = _ |- context [if ?b then _ else _] => rewrite H; simpl; other_slots
  | H : ?b = _ |- context [if negb ?b then _ else _] => rewrite H; simpl; other_slots
  end.

Ltac unfold_locals := repeat match goal with x := _ |- _ => subst x end.

Ltac bool_to_prop :=
  repeat match goal with
  | H : negb _ = true |- _ => apply negb_true_iff in H
  | H : negb _ = false |- _ => apply negb_false_iff in H
  | H : (_ && _) = true |- _ => apply andb_true_iff in H; destruct H
  | H : (_ <? _) = true |- _ => apply N.ltb_lt in H
  | H : (_ <? _) = false |- _ => apply N.ltb_ge in H
  | H : (_ <=? _) = true |- _ => apply N.leb_le in H
  | H : (_ <=? _) = false |- _ => apply N.leb_gt in H
  | H : (_ =? _) = true |- _ => apply N.eqb_eq in H
  | H : (_ =? _) = false |- _ => apply N.eqb_neq in H
  end.

Ltac prop_to_bool :=
  repeat match goal with
  | H : _ < _ |- _ => apply N.ltb_lt in H
  | H : _ ≤ _ |- _ => apply N.leb_le in H
  | H : @eq N _ _ |- _ => apply N.eqb_eq in H
  | H : _ ≠ _ |- _ => apply N.eqb_neq in H
  end.

(** A call that reverts leaves the storage as it found it. *)
Lemma execute_err env call s e s' :
  execute env call s = (Err e, s') → s' = s.
Proof.
  destruct call; unfold execute, transact;
    intros H; repeat case_match; by simplify_eq.
Qed.

Lemma execute_ok env call s rc s' :
  execute env call s = (Ok rc, s') ↔ commits env s call rc s'.
Proof.
  split.
  - destruct call as [g st en uri|id t d m q|v id idx|id|id].
    + rewrite execute_createCampaign. cbv zeta.
      repeat case_match; intros; simplify_eq; bool_to_prop.
      by constructor.
    + rewrite execute_addReward. cbv zeta.
      repeat case_match; intros; simplify_eq; bool_to_prop.
      by constructor.
    + rewrite execute_pledge. cbv zeta.
      repeat case_match; intros; simplify_eq; bool_to_prop.
      by constructor.
    + rewrite execute_withdraw. cbv zeta.
      repeat case_match; intros; simplify_eq; bool_to_prop.
      by constructor.
    + rewrite execute_refund. cbv zeta.
      repeat case_match; intros; simplify_eq; bool_to_prop.
      by constructor.
  - destruct 1; unfold_locals.
    + rewrite execute_createCampaign.
      assert (block_timestamp env < en) by lia.
      prop_to_bool. by repeat split_if.
    + rewrite execute_addReward. cbv zeta. prop_to_bool. by repeat split_if.
    + rewrite execute_pledge. cbv zeta. prop_to_bool.
      match goal with H : tier_outcome _ _ _ = _ |- _ => rewrite H end.
      match goal with H : (startAt _ <=? _) = true |- _ => rewrite H end.
      match goal with H : (_ <=? endAt _) = true |- _ => rewrite H end.
      by repeat split_if.
    + rewrite execute_withdraw. cbv zeta. prop_to_bool. by repeat split_if.
    + rewrite execute_refund. cbv zeta. prop_to_bool. by repeat split_if.
Qed.

Ltac invert_ok H :=
  apply execute_ok in H; inversion H; subst; unfold_locals.

(** ** Atomicity *)

(** The body of [withdraw] has already set [claimed] when the transfer
    fails; the transaction nevertheless ends on the storage it started
    from. *)
Lemma withdraw_transfer_failure env id s :
  let c := campaignAt s id in
  creator c ≠ 0 → msg_sender env = creator c →
  endAt c < block_timestamp env → goal c ≤ pledged c →
  claimed c = false → payout_ok env = false →
  ∃ f, withdraw env id (mkFrame s [] []) = (Err TransferFailed_withdraw, f) ∧
       claimed (campaignAt (storage f) id) = true ∧
       execute env (Withdraw id) s = (Err TransferFailed_withdraw, s).
Proof.
  intros c Hc Hs Ht Hg Hcl Hp. subst c.
  rewrite execute_withdraw. cbv zeta. run_body.
  prop_to_bool. take_branch.
  eexists. split; [done|]. split; [|done]. simpl. by other_slots.
Qed.

(** Likewise [refund] has zeroed the ledger entry and lowered the global
    total when its transfer fails. *)
Lemma refund_transfer_failure env id s :
  let c := campaignAt s id in
  let bal := pledgedAmountOf s id (msg_sender env) in
  creator c ≠ 0 → endAt c < block_timestamp env → pledged c < goal c →
  0 < bal → bal ≤ totalContributedOf s (msg_sender env) → payout_ok env = false →
  ∃ f, refund env id (mkFrame s [] []) = (Err TransferFailed_refund, f) ∧
       pledgedAmountOf (storage f) id (msg_sender env) = 0 ∧
       execute env (Refund id) s = (Err TransferFailed_refund, s).
Proof.
  intros c bal Hc Ht Hg Hb Hu Hp. subst c bal.
  rewrite execute_refund. cbv zeta. run_body. other_slots.
  prop_to_bool. take_branch.
  eexists. split; [done|]. split; [|done]. simpl. by other_slots.
Qed.

(** C5. A call that returns an error leaves the campaigns, the reward
    tiers, the pledge ledger and the global totals exactly as they were
    before the call. This covers a failed transfer inside [withdraw] or
    [refund], where the body has already written to storage (the [claimed]
    flag, the zeroed ledger entry) before the failure. *)
Theorem failed_call_changes_nothing :
  (∀ env call s e s', execute env call s = (Err e, s') → s' = s) ∧
  (∀ env id s,
     creator (campaignAt s id) ≠ 0 → msg_sender env = creator (campaignAt s id) →
     endAt (campaignAt s id) < block_timestamp env →
     goal (campaignAt s id) ≤ pledged (campaignAt s id) →
     claimed (campaignAt s id) = false → payout_ok env = false →
     ∃ f, withdraw env id (mkFrame s [] []) = (Err TransferFailed_withdraw, f) ∧
          storage f ≠ s ∧
          execute env (Withdraw id) s = (Err TransferFailed_withdraw, s)) ∧
  (∀ env id s,
     creator (campaignAt s id) ≠ 0 →
     endAt (campaignAt s id) < block_timestamp env →
     pledged (campaignAt s id) < goal (campaignAt s id) →
     0 < pledgedAmountOf s id (msg_sender env) →
     pledgedAmountOf s id (msg_sender env) ≤ totalContributedOf s (msg_sender env) →
     payout_ok env = false →
     ∃ f, refund env id (mkFrame s [] []) = (Err TransferFailed_refund, f) ∧
          storage f ≠ s ∧
          execute env (Refund id) s = (Err TransferFailed_refund, s)).
Proof.
  split; [|split].
  - apply execute_err.
  - intros env id s Hc Hs Ht Hg Hcl Hp.
    destruct (withdraw_transfer_failure env id s) as (f & Hf & Hd & He); try done.
    exists f. split; [done|]. split; [|done].
    intros Heq. rewrite Heq in Hd. congruence.
  - intros env id s Hc Ht Hg Hb Hu Hp.
    destruct (refund_transfer_failure env id s) as (f & Hf & Hd & He); try done.
    exists f. split; [done|]. split; [|done].
    intros Heq. rewrite Heq in Hd. lia.
Qed.

(** ** The contract of each call *)

(** C7. [refund] fails with CampaignNotFound when the campaign is absent,
    otherwise with CampaignNotEnded when the current time is at most
    [endAt], otherwise with GoalReached when [pledged >= goal], otherwise
    with NothingToRefund when the caller's recorded amount is zero. When
    it succeeds it zeroes the caller's recorded amount for the campaign,
    lowers the caller's global total by exactly that amount and transfers
    that amount to the caller; a refund repeated by the same caller, at the
    same or a later time, then fails with NothingToRefund. *)
Theorem refund_contract env id s :
  let c := campaignAt s id in
  let a := msg_sender env in
  let bal := pledgedAmountOf s id a in
  (creator c = 0 → execute env (Refund id) s = (Err CampaignNotFound, s)) ∧
  (creator c ≠ 0 → block_timestamp env ≤ endAt c →
     execute env (Refund id) s = (Err CampaignNotEnded, s)) ∧
  (creator c ≠ 0 → endAt c < block_timestamp env → goal c ≤ pledged c →
     execute env (Refund id) s = (Err GoalReached, s)) ∧
  (creator c ≠ 0 → endAt c < block_timestamp env → pledged c < goal c → bal = 0 →
     execute env (Refund id) s = (Err NothingToRefund, s)) ∧
  (∀ rc s', execute env (Refund id) s = (Ok rc, s') →
     pledgedAmountOf s' id a = 0 ∧
     bal ≤ totalContributedOf s a ∧
     totalContributedOf s' a = totalContributedOf s a - bal ∧
     payouts rc = [(a, bal)] ∧
     logs rc = [Refunded id a bal] ∧
     ∀ env', msg_sender env' = a → block_timestamp env ≤ block_timestamp env' →
       execute env' (Refund id) s' = (Err NothingToRefund, s')).
Proof.
  intros c a bal. subst c a bal. repeat split.
  - intros Hc. rewrite execute_refund. cbv zeta. prop_to_bool. by take_branch.
  - intros Hc Ht. rewrite execute_refund. cbv zeta.
    apply N.ltb_ge in Ht. prop_to_bool. by take_branch.
  - intros Hc Ht Hg. rewrite execute_refund. cbv zeta.
    apply N.ltb_ge in Hg. prop_to_bool. by take_branch.
  - intros Hc Ht Hg Hb. rewrite execute_refund. cbv zeta.
    rewrite Hb. prop_to_bool. by take_branch.
  - apply execute_ok in H. inversion H; subst. by other_slots.
  - apply execute_ok in H. by inversion H; subst.
  - apply execute_ok in H. inversion H; subst. by other_slots.
  - apply execute_ok in H. by inversion H; subst.
  - apply execute_ok in H. by inversion H; subst.
  - intros env' Hs Ht. invert_ok H.
    rewrite execute_refund. cbv zeta. rewrite Hs. other_slots.
    assert (endAt (campaignAt s id) < block_timestamp env') by lia.
    prop_to_bool. by take_branch.
Qed.

(** What [withdraw] itself writes: the [claimed] flag of its campaign and
    nothing else. When the account paid does not call back, the campaign's
    other fields ([pledged] in particular), every other campaign, the
    campaign counter, the reward tiers, every recorded pledge amount and
    every global total are as before. *)
Lemma withdraw_alone env id s rc s' :
  execute env (Withdraw id) s = (Ok rc, s') →
  let c := campaignAt s id in
  let c' := campaignAt s' id in
  claimed c = false ∧ claimed c' = true ∧
  creator c' = creator c ∧ goal c' = goal c ∧ pledged c' = pledged c ∧
  startAt c' = startAt c ∧ endAt c' = endAt c ∧ metadataURI c' = metadataURI c ∧
  (∀ id', id' ≠ id → campaigns s' !! id' = campaigns s !! id') ∧
  campaignCount s' = campaignCount s ∧
  campaignRewards s' = campaignRewards s ∧
  pledgedAmounts s' = pledgedAmounts s ∧
  totalContributed s' = totalContributed s ∧
  (∀ id' user, getUserContribution s' id' user = getUserContribution s id' user) ∧
  (∀ id', getRewards s' id' = getRewards s id').
Proof.
  intros H c c'. subst c c'. apply execute_ok in H. inversion H; subst.
  rewrite campaignAt_set_campaign_eq. simpl.
  repeat split; try done.
  intros id' Hne. by rewrite lookup_insert_ne.
Qed.

(** C8, as the code has it. A successful [createCampaign], [withdraw] or
    [refund] emits exactly one event, carrying the fields of the call; a
    successful [addReward] emits none; a successful [pledge] emits one
    [Pledged] event, preceded by one [RewardClaimed] event exactly when it
    claims a unit of a limited tier. *)
Theorem events_of_successful_calls env call s rc s' :
  execute env call s = (Ok rc, s') →
  match call with
  | CreateCampaign g st en uri =>
      logs rc = [CampaignCreated (campaignCount s + 1) (msg_sender env) g st en]
  | AddReward _ _ _ _ _ => logs rc = []
  | Pledge v id idx =>
      ∃ o, tier_outcome v idx (rewardsAt s id) = Ok o ∧
        logs rc = match o with
                  | Some _ => [RewardClaimed id (msg_sender env) idx;
                               Pledged id (msg_sender env) v]
                  | None => [Pledged id (msg_sender env) v]
                  end
  | Withdraw id => logs rc = [Withdrawn id (pledged (campaignAt s id))]
  | Refund id =>
      logs rc = [Refunded id (msg_sender env)
                   (pledgedAmountOf s id (msg_sender env))]
  end.
Proof.
  intros H. apply execute_ok in H. inversion H; subst; try done.
  exists o. split; [done|]. by destruct o.
Qed.

(** ** Sums over finite maps *)

Section Sums.
Context {A : Type} (f : A → N).

Let total (m : gmap N A) : N := map_fold (λ _ x acc, f x + acc) 0 m.

Lemma total_insert_fresh m k v :
  m !! k = None → total (<[k := v]> m) = f v + total m.
Proof.
  intros Hk. unfold total. rewrite map_fold_insert_L; [done| |done].
  intros. lia.
Qed.

Lemma total_delete m k x :
  m !! k = Some x → total m = f x + total (delete k m).
Proof.
  intros Hk. unfold total.
  apply (map_fold_delete_L (λ _ y acc, f y + acc) 0 k x m); [|done].
  intros. lia.
Qed.

Lemma total_insert m k v :
  total (<[k := v]> m) + from_option f 0 (m !! k) = total m + f v.
Proof.
  destruct (m !! k) as [x|] eqn:Hk; simpl.
  - rewrite <-(insert_delete_eq m k v).
    rewrite total_insert_fresh by apply lookup_delete_eq.
    rewrite (total_delete m k x Hk). lia.
  - rewrite total_insert_fresh by done. lia.
Qed.

Lemma total_lookup_le m k :
  from_option f 0 (m !! k) ≤ total m.
Proof.
  destruct (m !! k) as [x|] eqn:Hk; simpl; [|lia].
  rewrite (total_delete m k x Hk). lia.
Qed.
End Sums.

Lemma ledger_sum_insert m user amount :
  ledger_sum (<[user := amount]> m) + default 0 (m !! user) = ledger_sum m + amount.
Proof.
  unfold ledger_sum. rewrite <-(total_insert (λ x, x) m user amount).
  by destruct (m !! user).
Qed.

Lemma ledger_sum_empty : ledger_sum ∅ = 0.
Proof. apply map_fold_empty. Qed.

Lemma contributions_of_set_pledgedAmount s id user amount user' :
  contributions_of user' (pledgedAmounts (set_pledgedAmount id user amount s))
    + pledgedAmountOf s id user'
  = contributions_of user' (pledgedAmounts s)
    + (if decide (user = user') then amount else pledgedAmountOf s id user').
Proof.
  pose proof (total_insert (λ m, default 0 (m !! user')) (pledgedAmounts s) id
                (<[user := amount]> (ledgerAt s id))) as H.
  simpl in H. rewrite lookup_insert in H.
  unfold contributions_of, pledgedAmountOf. simpl.
  assert (from_option (λ m : gmap N N, default 0 (m !! user')) 0 (pledgedAmounts s !! id)
          = default 0 (ledgerAt s id !! user')) as Heq.
  { unfold ledgerAt. by destruct (pledgedAmounts s !! id). }
  rewrite Heq in H.
  destruct (decide (user = user')); simpl in H; lia.
Qed.

Lemma pledgedAmountOf_le_contributions s id user :
  pledgedAmountOf s id user ≤ contributions_of user (pledgedAmounts s).
Proof.
  unfold contributions_of, pledgedAmountOf, ledgerAt.
  pose proof (total_lookup_le (λ m, default 0 (m !! user)) (pledgedAmounts s) id) as H.
  by destruct (pledgedAmounts s !! id).
Qed.

(** ** Induction over reachable chains *)

Lemma apply_tx_eq tx c :
  apply_tx tx c =
  mkChain (execute (tx_env tx) (tx_call tx) (chain_state c)).2
          (block_timestamp (tx_env tx))
          ((tx, (execute (tx_env tx) (tx_call tx) (chain_state c)).1) :: chain_history c).
Proof. unfold apply_tx. by destruct (execute _ _ _). Qed.

Lemma reachable_induction (P : Chain → Prop) :
  P deployed →
  (∀ s t h tx e,
     reachable (mkChain s t h) → P (mkChain s t h) →
     t ≤ block_timestamp (tx_env tx) →
     execute (tx_env tx) (tx_call tx) s = (Err e, s) →
     P (mkChain s (block_timestamp (tx_env tx)) ((tx, Err e) :: h))) →
  (∀ s t h env call rc s',
     reachable (mkChain s t h) → P (mkChain s t h) →
     t ≤ block_timestamp env →
     commits env s call rc s' →
     P (mkChain s' (block_timestamp env) ((mkTx env call, Ok rc) :: h))) →
  ∀ c, reachable c → P c.
Proof.
  intros Hd Herr Hok c Hc. induction Hc as [|c tx Hc IH Hadm]; [done|].
  rewrite apply_tx_eq. destruct c as [s t h]. simpl in *.
  destruct (execute (tx_env tx) (tx_call tx) s) as [[rc|e] s'] eqn:Hex; simpl.
  - destruct tx as [env call]. apply execute_ok in Hex. by eapply Hok.
  - pose proof (execute_err _ _ _ _ _ Hex) as ->. by eapply Herr.
Qed.

Lemma reachable_run_from c txs :
  reachable c → chronological (chain_time c) txs = true →
  reachable (foldl (λ c tx, apply_tx tx c) c txs).
Proof.
  revert c. induction txs as [|tx txs IH]; intros c Hc Ht; simpl in *; [done|].
  apply andb_true_iff in Ht as [Ht1 Ht2]. apply N.leb_le in Ht1.
  apply IH.
  - by constructor.
  - by rewrite apply_tx_eq.
Qed.

Lemma reachable_run txs : chronological 0 txs = true → reachable (run txs).
Proof. intros H. apply reachable_run_from; [constructor|done]. Qed.

Lemma is_withdraw_same id env : is_withdraw id (mkTx env (Withdraw id)) = true.
Proof. unfold is_withdraw. simpl. apply N.eqb_refl. Qed.

Lemma is_refund_same id env : is_refund id (mkTx env (Refund id)) = true.
Proof. unfold is_refund. simpl. apply N.eqb_refl. Qed.

Lemma is_tier_pledge_same id idx env v :
  is_tier_pledge id idx (mkTx env (Pledge v id idx)) = true.
Proof. unfold is_tier_pledge. simpl. by rewrite !N.eqb_refl. Qed.

Lemma is_tier_pledge_other id idx env v id' idx' :
  ¬ (id' = id ∧ idx' = idx) →
  is_tier_pledge id idx (mkTx env (Pledge v id' idx')) = false.
Proof.
  intros Hne. unfold is_tier_pledge. simpl.
  destruct (N.eqb_spec id' id), (N.eqb_spec idx' idx); simpl; try done.
  by destruct Hne.
Qed.

(** *** Identifiers *)

Lemma unused_above_count_reachable c :
  reachable c → unused_above_count (chain_state c).
Proof.
  revert c. apply reachable_induction; try done.
  intros s t h env call rc s' _ IH _ Hc. simpl in *.
  unfold unused_above_count in *.
  destruct Hc; unfold_locals; simpl; other_slots; intros id' Hid';
    try by apply IH.
  - rewrite lookup_insert_ne by lia. apply IH. lia.
  - rewrite lookup_insert_ne; [by apply IH|].
    intros ->. apply H. unfold campaignAt. by rewrite IH.
  - rewrite lookup_insert_ne; [by apply IH|].
    intros ->. apply H. unfold campaignAt. by rewrite IH.
Qed.

Lemma existing_campaign_le_count s id :
  unused_above_count s → creator (campaignAt s id) ≠ 0 → id ≤ campaignCount s.
Proof.
  intros Hu Hc. destruct (decide (id ≤ campaignCount s)) as [|Hn]; [done|].
  exfalso. apply Hc. unfold campaignAt. rewrite Hu; [done|lia].
Qed.

Lemma campaignAt_unused s id :
  unused_above_count s → campaignCount s < id → campaignAt s id = zeroCampaign.
Proof. intros Hu Hid. unfold campaignAt. by rewrite Hu. Qed.

Lemma ids_down_spec n id : id ∈ ids_down n ↔ 1 ≤ id ≤ N.of_nat n.
Proof.
  induction n as [|n IH]; simpl.
  - rewrite elem_of_nil. lia.
  - rewrite elem_of_cons, IH. lia.
Qed.

Lemma ids_down_NoDup n : NoDup (ids_down n).
Proof.
  induction n as [|n IH]; simpl; constructor; [|done].
  rewrite ids_down_spec. lia.
Qed.

Lemma created_ids_reachable c :
  reachable c →
  created_ids (chain_history c) = ids_down (N.to_nat (campaignCount (chain_state c))).
Proof.
  revert c. apply reachable_induction; try done.
  intros s t h env call rc s' _ IH _ Hc. simpl in *.
  destruct Hc; unfold_locals; simpl; other_slots; try done.
  rewrite IH.
  replace (N.to_nat (campaignCount s + 1)) with (S (N.to_nat (campaignCount s))) by lia.
  simpl. f_equal. lia.
Qed.

(** *** Conservation *)

Lemma pledged_is_ledger_sum_until_refund c :
  reachable c →
  ∀ id, refunds id c = 0%nat →
    pledged (campaignAt (chain_state c) id) = ledger_sum (ledgerAt (chain_state c) id).
Proof.
  intros Hr. pattern c. revert c Hr. apply reachable_induction.
  - intros id _. simpl. unfold ledgerAt. simpl. rewrite lookup_empty. simpl.
    by rewrite ledger_sum_empty.
  - intros s t h tx e _ IH _ _ id. unfold refunds in *. simpl in *.
    rewrite andb_false_r. apply IH.
  - intros s t h env call rc s' Hr IH _ Hc id. unfold refunds in *. simpl in *.
    pose proof (unused_above_count_reachable _ Hr) as Hu. simpl in Hu.
    destruct Hc; unfold_locals; unfold is_refund; simpl; other_slots; intros Hn.
    + rewrite campaignAt_set_campaign.
      destruct (decide (campaignCount s + 1 = id)) as [<-|]; [|by apply IH].
      simpl. rewrite <-IH by done.
      rewrite campaignAt_unused; [done|done|lia].
    + by apply IH.
    + rewrite campaignAt_set_campaign, ledgerAt_set_pledgedAmount. other_slots.
      destruct (decide (id0 = id)) as [<-|]; [|by apply IH]. simpl.
      pose proof (ledger_sum_insert (ledgerAt s id0) (msg_sender env)
                    (pledgedAmountOf s id0 (msg_sender env) + v)) as Hs.
      fold (pledgedAmountOf s id0 (msg_sender env)) in Hs.
      specialize (IH id0 Hn). lia.
    + rewrite campaignAt_set_campaign.
      destruct (decide (id0 = id)) as [<-|]; [|by apply IH]. simpl. by apply IH.
    + rewrite ledgerAt_set_pledgedAmount.
      destruct (decide (id0 = id)) as [<-|Hne]; [|apply IH].
      * by rewrite N.eqb_refl in Hn.
      * apply N.eqb_neq in Hne. by rewrite Hne in Hn.
Qed.

(** *** Global totals *)

Lemma totals_match_reachable c : reachable c → totals_match (chain_state c).
Proof.
  revert c. apply reachable_induction; try done.
  intros s t h env call rc s' _ IH _ Hc. simpl in *.
  unfold totals_match in *.
  destruct Hc; unfold_locals; intros user; simpl; other_slots; try by apply IH.
  - rewrite totalContributedOf_set_totalContributed.
    pose proof (contributions_of_set_pledgedAmount (after_tier id o s) id
                  (msg_sender env) (pledgedAmountOf s id (msg_sender env) + v) user) as Hs.
    simpl in Hs. autorewrite with slots in Hs. specialize (IH user).
    destruct (decide (msg_sender env = user)) as [<-|]; other_slots; lia.
  - rewrite totalContributedOf_set_totalContributed.
    pose proof (contributions_of_set_pledgedAmount s id (msg_sender env) 0 user) as Hs.
    simpl in Hs. specialize (IH user).
    destruct (decide (msg_sender env = user)) as [<-|]; other_slots; lia.
Qed.

(** In a reachable state the subtraction in [refund] cannot underflow. *)
Lemma refund_no_underflow c id user :
  reachable c →
  pledgedAmountOf (chain_state c) id user ≤ totalContributedOf (chain_state c) user.
Proof.
  intros Hr. rewrite (totals_match_reachable c Hr user).
  apply pledgedAmountOf_le_contributions.
Qed.

(** *** Settlement *)

Lemma settlement_inv_unchanged c c' id :
  campaignAt (chain_state c') id = campaignAt (chain_state c) id →
  chain_time c ≤ chain_time c' →
  withdrawals id c' = withdrawals id c →
  refunds id c' = refunds id c →
  withdraw_payouts id (chain_history c') = withdraw_payouts id (chain_history c) →
  settlement_inv c id → settlement_inv c' id.
Proof.
  unfold settlement_inv. intros -> Ht -> -> ->. cbv zeta.
  intros (H1 & H2 & H3 & H4 & H5).
  split; [done|]. split; [done|]. split; [|split; [|done]].
  - intros H. apply H3 in H as (? & ? & ?). repeat split; [done|lia|done].
  - intros H. apply H4 in H as (? & ? & ?). repeat split; [done|lia|done].
Qed.

Lemma settlement_inv_reachable c :
  reachable c → ∀ id, settlement_inv c id.
Proof.
  intros Hr. pattern c. revert c Hr. apply reachable_induction.
  - intros id. unfold settlement_inv, withdrawals, refunds, campaignAt. simpl.
    rewrite lookup_empty. simpl. repeat split; try done; lia.
  - intros s t h tx e _ IH Ht _ id.
    eapply settlement_inv_unchanged; [| | | | |apply IH]; simpl; try done;
      unfold withdrawals, refunds; simpl;
      by rewrite ?andb_false_r.
  - intros s t h env call rc s' Hr IH Ht Hc id.
    pose proof (unused_above_count_reachable _ Hr) as Hu. simpl in Hu.
    assert (∀ s'' call', 
      campaignAt s'' id = campaignAt s id →
      is_withdraw id (mkTx env call') = false →
      is_refund id (mkTx env call') = false →
      settlement_inv (mkChain s'' (block_timestamp env) ((mkTx env call', Ok rc) :: h)) id)
      as Hsame.
    { intros s'' call' Heq Hw Hf.
      eapply settlement_inv_unchanged; [| | | | |apply IH]; simpl; try done;
        unfold withdrawals, refunds; simpl; by rewrite ?Hw, ?Hf. }
    pose proof (IH id) as (I1 & I2 & I3 & I4 & I5).
    unfold withdrawals, refunds in *. simpl in *.
    destruct Hc; unfold_locals.
    + destruct (decide (campaignCount s + 1 = id)) as [<-|Hne].
      * rewrite campaignAt_unused in * by (done || lia). simpl in *.
        unfold settlement_inv, withdrawals, refunds. simpl. other_slots. simpl.
        split_and!; try done.
        intros Hf. apply I4 in Hf. lia.
      * apply Hsame; try done. by rewrite campaignAt_set_campaign_ne.
    + by apply Hsame.
    + destruct (decide (id0 = id)) as [<-|Hne].
      * unfold settlement_inv, withdrawals, refunds. simpl. other_slots. simpl.
        assert (claimed (campaignAt s id0) = false) as Hcl.
        { destruct (claimed (campaignAt s id0)); [|done].
          destruct I3 as (_ & ? & _); [done|lia]. }
        assert (count_success (is_refund id0) h = 0%nat) as Hrf.
        { destruct (count_success (is_refund id0) h); [done|].
          destruct I4 as (_ & ? & _); lia. }
        rewrite Hcl in *. rewrite Hrf.
        split_and!; try done. lia.
      * apply Hsame; try done. other_slots.
        rewrite campaignAt_set_campaign_ne by done. by other_slots.
    + destruct (decide (id0 = id)) as [<-|Hne].
      * unfold settlement_inv, withdrawals, refunds.
        simpl. other_slots. simpl. rewrite is_withdraw_same. simpl.
        rewrite H3 in *.
        assert (count_success (is_withdraw id0) h = 0%nat) as Hw.
        { destruct (count_success (is_withdraw id0) h) as [|[|n]]; [done| |lia].
          assert (false = true) by by apply I1. done. }
        rewrite Hw, I5. split_and!; try done.
        intros Hf. apply I4 in Hf. lia.
      * apply Hsame.
        -- by rewrite campaignAt_set_campaign_ne.
        -- unfold is_withdraw. simpl. by apply N.eqb_neq.
        -- done.
    + destruct (decide (id0 = id)) as [<-|Hne].
      * unfold settlement_inv, withdrawals, refunds.
        simpl. other_slots. simpl. rewrite is_refund_same. simpl.
        assert (claimed (campaignAt s id0) = false) as Hcl.
        { destruct (claimed (campaignAt s id0)); [|done].
          destruct I3 as (_ & _ & ?); [done|lia]. }
        rewrite Hcl in *.
        split_and!; try done.
      * apply Hsame; try done.
        unfold is_refund. simpl. by apply N.eqb_neq.
Qed.

(** *** Reward tiers *)

Lemma tier_outcome_claimed v idx rs rs' :
  tier_outcome v idx rs = Ok (Some rs') →
  ∃ r, rs !! N.to_nat idx = Some r ∧
       minimumContribution r ≤ v ∧ 0 < quantityAvailable r ∧
       claimedCount r < quantityAvailable r ∧
       rs' = <[N.to_nat idx := with_claimedCount (claimedCount r + 1) r]> rs.
Proof.
  unfold tier_outcome. intros H.
  repeat case_match; simplify_eq; bool_to_prop. eauto 10.
Qed.

Lemma tier_outcome_untouched v idx rs :
  tier_outcome v idx rs = Ok None →
  match rs !! N.to_nat idx with
  | Some r => quantityAvailable r = 0 ∧ minimumContribution r ≤ v
  | None => True
  end.
Proof.
  unfold tier_outcome. intros H.
  destruct (idx <? N.of_nat (length rs)) eqn:Hlen; bool_to_prop.
  - repeat case_match; simplify_eq; bool_to_prop; try done. split; [lia|done].
  - rewrite (proj2 (lookup_ge_None rs (N.to_nat idx))); [done|lia].
Qed.

(** Once a limited tier has no unit left, a pledge naming it reverts:
    with RewardSoldOut if it offers the tier's minimum, with
    BelowRewardMinimum otherwise. *)
Lemma tier_outcome_sold_out v idx rs r :
  rs !! N.to_nat idx = Some r →
  0 < quantityAvailable r → quantityAvailable r ≤ claimedCount r →
  tier_outcome v idx rs =
  Err (if minimumContribution r <=? v then RewardSoldOut else BelowRewardMinimum).
Proof.
  intros Hr Hq Hc. unfold tier_outcome. rewrite Hr.
  pose proof (lookup_lt_Some _ _ _ Hr) as Hlt.
  assert ((idx <? N.of_nat (length rs)) = true) as -> by (apply N.ltb_lt; lia).
  destruct (minimumContribution r <=? v); [|done].
  apply N.ltb_lt in Hq as ->. apply N.ltb_ge in Hc as ->. done.
Qed.

Lemma tiers_within_quantity_step env call s :
  tiers_within_quantity s → tiers_within_quantity (execute env call s).2.
Proof.
  intros Hs. destruct (execute env call s) as [[rc|e] s'] eqn:Hex; simpl.
  2: { by rewrite (execute_err _ _ _ _ _ Hex). }
  apply execute_ok in Hex. unfold tiers_within_quantity in *.
  destruct Hex; unfold_locals; intros id' i r; other_slots; try apply Hs.
  - rewrite rewardsAt_set_rewards. destruct (decide (id = id')) as [<-|]; [|apply Hs].
    intros Hl. apply lookup_app_Some in Hl as [Hl|[_ Hl]]; [by eapply Hs|].
    apply list_lookup_singleton_Some in Hl as [_ <-]. simpl. lia.
  - destruct o as [rs'|]; simpl; other_slots; [|apply Hs].
    apply tier_outcome_claimed in H3 as (r0 & Hr0 & _ & _ & Hlt & ->).
    rewrite rewardsAt_set_rewards. destruct (decide (id = id')) as [<-|]; [|apply Hs].
    destruct (decide (N.to_nat idx = i)) as [<-|Hne].
    + rewrite list_lookup_insert_eq by (by eapply lookup_lt_Some).
      intros [= <-]. simpl. lia.
    + rewrite list_lookup_insert_ne by done. apply Hs.
Qed.

Lemma tiers_within_quantity_reachable c :
  reachable c → tiers_within_quantity (chain_state c).
Proof.
  induction 1 as [|c tx Hc IH Hadm].
  - intros id i r. unfold rewardsAt. simpl. by rewrite lookup_empty.
  - rewrite apply_tx_eq. simpl. by apply tiers_within_quantity_step.
Qed.

Lemma tier_inv_unchanged c c' id idx :
  rewardsAt (chain_state c') id !! N.to_nat idx
    = rewardsAt (chain_state c) id !! N.to_nat idx →
  tier_pledges id idx c' = tier_pledges id idx c →
  (creator (campaignAt (chain_state c) id) ≠ 0 →
   creator (campaignAt (chain_state c') id) = creator (campaignAt (chain_state c) id) ∧
   startAt (campaignAt (chain_state c') id) = startAt (campaignAt (chain_state c) id)) →
  chain_time c ≤ chain_time c' →
  tier_inv c id idx → tier_inv c' id idx.
Proof.
  unfold tier_inv. intros -> -> Hcamp Ht.
  destruct (rewardsAt (chain_state c) id !! N.to_nat idx); [done|].
  intros IH Hp. destruct (IH Hp) as [Hc Hs].
  destruct (Hcamp Hc) as [-> ->]. split; [done|lia].
Qed.

Lemma tier_inv_reachable c :
  reachable c → ∀ id idx, tier_inv c id idx.
Proof.
  intros Hr. pattern c. revert c Hr. apply reachable_induction.
  - intros id idx. unfold tier_inv, rewardsAt, tier_pledges. simpl.
    rewrite lookup_empty. simpl. lia.
  - intros s t h tx e _ IH Ht _ id idx.
    eapply tier_inv_unchanged; [| | | |apply IH]; simpl; try done.
    unfold tier_pledges. simpl. by rewrite andb_false_r.
  - intros s t h env call rc s' Hr IH Ht Hc id idx.
    pose proof (unused_above_count_reachable _ Hr) as Hu. simpl in Hu.
    assert (∀ s'' call',
      rewardsAt s'' id !! N.to_nat idx = rewardsAt s id !! N.to_nat idx →
      is_tier_pledge id idx (mkTx env call') = false →
      (creator (campaignAt s id) ≠ 0 →
       creator (campaignAt s'' id) = creator (campaignAt s id) ∧
       startAt (campaignAt s'' id) = startAt (campaignAt s id)) →
      tier_inv (mkChain s'' (block_timestamp env) ((mkTx env call', Ok rc) :: h)) id idx)
      as Hsame.
    { intros s'' call' Hrw Hp Hcamp.
      eapply tier_inv_unchanged; [| | | |apply IH]; simpl; try done.
      unfold tier_pledges. simpl. by rewrite Hp. }
    pose proof (IH id idx) as I. unfold tier_inv, tier_pledges in I. simpl in I.
    destruct Hc; unfold_locals.
    + apply Hsame; try done. intros Hex.
      apply existing_campaign_le_count in Hex; [|done].
      rewrite campaignAt_set_campaign_ne by lia. by other_slots.
    + destruct (decide (id0 = id)) as [->|Hne].
      2: { apply Hsame; try done. by rewrite rewardsAt_set_rewards_ne. }
      destruct (decide (N.to_nat idx = length (rewardsAt s id))) as [Hidx|Hidx].
      * unfold tier_inv, tier_pledges. simpl. other_slots.
        rewrite lookup_app_r by lia. rewrite Hidx, Nat.sub_diag. simpl.
        rewrite (proj2 (lookup_ge_None _ _)) in I by lia.
        destruct (count_success (is_tier_pledge id idx) h) as [|n]; [lia|].
        destruct I as [_ I]; lia.
      * apply Hsame; try done. other_slots.
        destruct (decide (N.to_nat idx < length (rewardsAt s id))%nat).
        -- by rewrite lookup_app_l.
        -- rewrite !(proj2 (lookup_ge_None _ _)); [done|lia|].
           rewrite length_app. simpl. lia.
    + destruct (decide (id0 = id)) as [->|Hne].
      2: { apply Hsame.
           - other_slots. by rewrite rewardsAt_after_tier_ne.
           - apply is_tier_pledge_other. tauto.
           - other_slots. rewrite campaignAt_set_campaign_ne by done. by other_slots. }
      destruct (decide (idx0 = idx)) as [->|Hidx].
      * unfold tier_inv, tier_pledges. simpl. other_slots.
        rewrite is_tier_pledge_same. simpl.
        destruct o as [rs'|]; simpl; other_slots.
        -- apply tier_outcome_claimed in H3 as (r & Hr0 & _ & _ & Hlt & ->).
           rewrite list_lookup_insert_eq by (by eapply lookup_lt_Some).
           simpl. rewrite Hr0 in I. intros Hq. destruct (I Hq) as [I1 I2]. lia.
        -- apply tier_outcome_untouched in H3.
           destruct (rewardsAt s id !! N.to_nat idx) as [r|]; [lia|].
           intros _. simpl. done.
      * apply Hsame.
        -- other_slots. destruct o as [rs'|]; simpl; [|done]. other_slots.
           apply tier_outcome_claimed in H3 as (r & Hr0 & _ & _ & Hlt & ->).
           rewrite list_lookup_insert_ne; [done|lia].
        -- apply is_tier_pledge_other. tauto.
        -- other_slots. by simpl.
    + apply Hsame; try done. intros _.
      rewrite campaignAt_set_campaign.
      by destruct (decide (id0 = id)) as [->|].
    + by apply Hsame.
Qed.

(** Only existing campaigns have tiers. *)
Lemma tiers_imply_campaign c :
  reachable c →
  ∀ id i r, rewardsAt (chain_state c) id !! i = Some r →
    creator (campaignAt (chain_state c) id) ≠ 0.
Proof.
  intros Hr. pattern c. revert c Hr. apply reachable_induction.
  - intros id i r. unfold rewardsAt. simpl. by rewrite lookup_empty.
  - done.
  - intros s t h env call rc s' Hr IH _ Hc id' i r. simpl in *.
    pose proof (unused_above_count_reachable _ Hr) as Hu. simpl in Hu.
    destruct Hc; unfold_locals; other_slots.
    + intros Hl. pose proof (IH _ _ _ Hl) as Hex.
      apply existing_campaign_le_count in Hex as Hle; [|done].
      by rewrite campaignAt_set_campaign_ne by lia.
    + rewrite rewardsAt_set_rewards.
      destruct (decide (id = id')) as [<-|]; [done|apply IH].
    + rewrite campaignAt_set_campaign.
      destruct (decide (id = id')) as [<-|Hne]; [done|].
      other_slots. rewrite rewardsAt_after_tier_ne by done. apply IH.
    + rewrite campaignAt_set_campaign.
      destruct (decide (id = id')) as [<-|Hne]; [done|]. apply IH.
    + apply IH.
Qed.

(** *** Campaigns after their end *)

(** Once the clock has passed the end of an existing campaign, no
    transaction changes its creator, goal, window or pledged total. *)
Lemma campaign_frozen_after_end c id tx :
  reachable c → admissible c tx →
  creator (campaignAt (chain_state c) id) ≠ 0 →
  endAt (campaignAt (chain_state c) id) < chain_time c →
  let cp := campaignAt (chain_state c) id in
  let cp' := campaignAt (chain_state (apply_tx tx c)) id in
  creator cp' = creator cp ∧ goal cp' = goal cp ∧ pledged cp' = pledged cp ∧
  startAt cp' = startAt cp ∧ endAt cp' = endAt cp.
Proof.
  intros Hr Hadm Hex Hend. rewrite apply_tx_eq. simpl.
  destruct c as [s t h]. destruct tx as [env call]. unfold admissible in Hadm.
  simpl in *.
  pose proof (unused_above_count_reachable _ Hr) as Hu. simpl in Hu.
  pose proof (existing_campaign_le_count _ _ Hu Hex) as Hle.
  destruct (execute env call s) as [[rc|e] s'] eqn:Hx; simpl.
  2: { by rewrite (execute_err _ _ _ _ _ Hx). }
  apply execute_ok in Hx. destruct Hx; unfold_locals; other_slots; try done.
  - rewrite campaignAt_set_campaign_ne by lia. by other_slots.
  - rewrite campaignAt_set_campaign.
    destruct (decide (id0 = id)) as [->|]; [lia|by other_slots].
  - rewrite campaignAt_set_campaign.
    by destruct (decide (id0 = id)) as [->|].
Qed.

Lemma count_success_apply_tx p tx c :
  (count_success p (chain_history c) ≤ count_success p (chain_history (apply_tx tx c)))%nat.
Proof. rewrite apply_tx_eq. simpl. lia. Qed.

(** ** Properties of every reachable chain *)

(** C1. Conservation. In every reachable state in which neither a
    [withdraw] nor a [refund] on a campaign has succeeded, the campaign's
    [pledged] field is the sum of the amounts recorded for it in
    [pledgedAmounts]; and a [withdraw] that succeeds transfers to the
    creator exactly the [pledged] amount the campaign holds at that
    moment. *)
Theorem conservation c id :
  reachable c →
  (withdrawals id c = 0%nat → refunds id c = 0%nat →
   pledged (campaignAt (chain_state c) id)
   = ledger_sum (ledgerAt (chain_state c) id)) ∧
  (∀ env rc s',
     execute env (Withdraw id) (chain_state c) = (Ok rc, s') →
     payouts rc = [(creator (campaignAt (chain_state c) id),
                    pledged (campaignAt (chain_state c) id))]).
Proof.
  intros Hr. split.
  - intros _ Hf. by apply pledged_is_ledger_sum_until_refund.
  - intros env rc s' H. by invert_ok H.
Qed.

(** C3. Refund exclusivity. On no campaign do both a [withdraw] and a
    [refund] ever succeed. Either one succeeds only after [endAt]; a
    [withdraw] only with [pledged >= goal] and a [refund] only with
    [pledged < goal]; and once the clock is past [endAt] no transaction
    changes the campaign's [pledged] or [goal], so that comparison alone
    decides which of the two is possible. *)
Theorem refund_withdraw_exclusive c id :
  reachable c →
  let s := chain_state c in
  let cp := campaignAt s id in
  ¬ ((0 < withdrawals id c)%nat ∧ (0 < refunds id c)%nat) ∧
  ((0 < withdrawals id c)%nat → endAt cp < chain_time c ∧ goal cp ≤ pledged cp) ∧
  ((0 < refunds id c)%nat → endAt cp < chain_time c ∧ pledged cp < goal cp) ∧
  (∀ env rc s', execute env (Withdraw id) s = (Ok rc, s') →
     endAt cp < block_timestamp env ∧ goal cp ≤ pledged cp) ∧
  (∀ env rc s', execute env (Refund id) s = (Ok rc, s') →
     endAt cp < block_timestamp env ∧ pledged cp < goal cp) ∧
  (∀ tx, admissible c tx → creator cp ≠ 0 → endAt cp < chain_time c →
     pledged (campaignAt (chain_state (apply_tx tx c)) id) = pledged cp ∧
     goal (campaignAt (chain_state (apply_tx tx c)) id) = goal cp).
Proof.
  intros Hr s cp. subst s cp.
  destruct (settlement_inv_reachable c Hr id) as (I1 & I2 & I3 & I4 & I5).
  assert ((0 < withdrawals id c)%nat →
          endAt (campaignAt (chain_state c) id) < chain_time c ∧
          goal (campaignAt (chain_state c) id) ≤ pledged (campaignAt (chain_state c) id))
    as Hw.
  { intros Hpos. destruct I3 as (_ & ? & ?); [|done]. apply I1. lia. }
  split_and!.
  - intros [Hpw Hpf]. apply Hw in Hpw. apply I4 in Hpf. lia.
  - done.
  - intros Hpf. apply I4 in Hpf. tauto.
  - intros env rc s' H. by invert_ok H.
  - intros env rc s' H. by invert_ok H.
  - intros tx Hadm Hex Hend.
    destruct (campaign_frozen_after_end c id tx) as (_ & ? & ? & _); done.
Qed.

(** C2, as the code has it. The [claimed] flag of a campaign is false
    until a [withdraw] on it succeeds, true from then on, and at most one
    [withdraw] on it ever succeeds. After that every further [withdraw]
    call on the campaign fails: with AlreadySettled when the creator
    calls, and with NotCreator (the earlier check) when any other account
    does. The successful [withdraw] calls on the campaign have paid its
    creator its [pledged] total once if the flag is set, and nothing
    otherwise. *)
Theorem settled_at_most_once c id :
  reachable c →
  let s := chain_state c in
  let cp := campaignAt s id in
  (claimed cp = true ↔ withdrawals id c = 1%nat) ∧
  (claimed cp = false ↔ withdrawals id c = 0%nat) ∧
  (∀ tx, admissible c tx → claimed cp = true →
     claimed (campaignAt (chain_state (apply_tx tx c)) id) = true) ∧
  (claimed cp = true → ∀ env, chain_time c ≤ block_timestamp env →
     execute env (Withdraw id) s =
     (Err (if msg_sender env =? creator cp then AlreadySettled
           else NotCreator_withdraw), s)) ∧
  withdraw_payouts id (chain_history c) =
    (if claimed cp then [(creator cp, pledged cp)] else []).
Proof.
  intros Hr s cp. subst s cp.
  destruct (settlement_inv_reachable c Hr id) as (I1 & I2 & I3 & I4 & I5).
  split_and!; try done.
  - destruct (claimed (campaignAt (chain_state c) id)) eqn:Hcl.
    + split; [done|]. intros H0.
      assert (withdrawals id c = 1%nat) by by apply I1. lia.
    + split; [|done]. intros _.
      destruct (withdrawals id c) as [|[|n]] eqn:Hw; [done| |lia].
      assert (false = true) by by apply I1. done.
  - intros tx Hadm Hcl.
    assert (reachable (apply_tx tx c)) as Hr' by by constructor.
    destruct (settlement_inv_reachable _ Hr' id) as (J1 & J2 & _).
    apply J1. apply I1 in Hcl.
    pose proof (count_success_apply_tx (is_withdraw id) tx c).
    unfold withdrawals in *. lia.
  - intros Hcl env Ht. destruct (I3 Hcl) as (Hex & Hend & Hg).
    rewrite execute_withdraw. cbv zeta.
    assert (endAt (campaignAt (chain_state c) id) < block_timestamp env) by lia.
    prop_to_bool.
    destruct (msg_sender env =? creator (campaignAt (chain_state c) id)) eqn:Hs;
      by take_branch.
Qed.

(** C4, as the code has it. For a tier of any reachable state with
    [quantityAvailable = N > 0]: [claimedCount <= N], an invariant every
    call preserves; [claimedCount] is the number of successful pledges
    that named the tier, so at most [N] ever succeed; and once
    [claimedCount] has reached [N] every further pledge naming the tier
    fails - with RewardSoldOut when it passes the checks made before the
    sold-out check (the campaign is active, the amount is not zero and is
    at least the tier's minimum), and otherwise with the error of the
    first of those checks it fails (CampaignInactive, ZeroAmount,
    BelowRewardMinimum, in this order). *)
Theorem reward_scarcity c id idx r :
  reachable c →
  rewardsAt (chain_state c) id !! N.to_nat idx = Some r →
  0 < quantityAvailable r →
  let s := chain_state c in
  let cp := campaignAt s id in
  claimedCount r ≤ quantityAvailable r ∧
  N.of_nat (tier_pledges id idx c) = claimedCount r ∧
  N.of_nat (tier_pledges id idx c) ≤ quantityAvailable r ∧
  (∀ env call, tiers_within_quantity (execute env call s).2) ∧
  (claimedCount r = quantityAvailable r → ∀ env v,
     execute env (Pledge v id idx) s =
     (Err (if negb ((startAt cp <=? block_timestamp env)
                    && (block_timestamp env <=? endAt cp))
           then CampaignInactive
           else if negb (0 <? v) then ZeroAmount
           else if negb (minimumContribution r <=? v) then BelowRewardMinimum
           else RewardSoldOut), s) ∧
     (startAt cp ≤ block_timestamp env → block_timestamp env ≤ endAt cp →
      0 < v → minimumContribution r ≤ v →
      execute env (Pledge v id idx) s = (Err RewardSoldOut, s))).
Proof.
  intros Hr Hl Hq s cp. subst s cp.
  pose proof (tier_inv_reachable c Hr id idx) as I. unfold tier_inv in I.
  rewrite Hl in I. destruct (I Hq) as [I1 I2].
  pose proof (tier_inv_reachable c Hr id idx) as J. unfold tier_inv in J.
  split_and!; try done; try lia.
  - intros env call. apply tiers_within_quantity_step.
    by apply tiers_within_quantity_reachable.
  - intros Hfull env v.
    pose proof (tier_outcome_sold_out v idx _ r Hl Hq) as Hout.
    rewrite execute_pledge. cbv zeta. rewrite Hout by lia.
    pose proof (tiers_imply_campaign c Hr id _ r Hl) as Hex.
    split.
    + apply N.eqb_neq in Hex. rewrite Hex. by repeat split_if.
    + intros Hs He Hv Hm. prop_to_bool. rewrite Hs, He. by take_branch.
Qed.

(** *** Creating campaigns *)

(** Every value of the counter up to the largest [uint256] is reached by
    some history (of that many creations, all at time 0). *)
Lemma campaignCount_reachable n :
  n ≤ MAX_UINT256 →
  ∃ c, reachable c ∧ campaignCount (chain_state c) = n ∧ chain_time c = 0.
Proof.
  induction n as [|n IH] using N.peano_ind; intros Hn.
  - exists deployed. split_and!; [constructor|done..].
  - destruct IH as (c & Hr & Hc & Ht); [lia|].
    exists (apply_tx (call_at owner 0 true (CreateCampaign 1 0 1 "")) c).
    split_and!.
    + constructor; [done|]. unfold admissible. simpl. lia.
    + rewrite apply_tx_eq. unfold call_at. cbn [chain_state tx_env tx_call].
      rewrite execute_createCampaign.
      assert ((campaignCount (chain_state c) + 1 <=? MAX_UINT256) = true) as Hb
        by (apply N.leb_le; lia).
      simpl. rewrite Hb. simpl. lia.
    + by rewrite apply_tx_eq.
Qed.

(** C6, as the code has it. [createCampaign] fails with InvalidGoal when
    the goal is zero, otherwise with InvalidWindow when [startAt >= endAt],
    otherwise with WindowNotFuture when [startAt] is before the current
    time or [endAt] is not after it. Otherwise, as long as the campaign
    counter is below [2^256 - 1], it succeeds: it increments the counter,
    stores under the new value the record with the caller as creator,
    [pledged = 0] and [claimed = false], leaves every other slot alone and
    returns the new value; with the counter at [2^256 - 1] the increment
    reverts. Over a history the identifiers returned are 1, 2, 3, ... in
    this order, each one fresh when it is allocated. *)
Theorem createCampaign_contract :
  (∀ env g st en uri s,
     let now := block_timestamp env in
     let call := CreateCampaign g st en uri in
     (g = 0 → execute env call s = (Err InvalidGoal, s)) ∧
     (0 < g → en ≤ st → execute env call s = (Err InvalidWindow, s)) ∧
     (0 < g → st < en → st < now ∨ en ≤ now →
        execute env call s = (Err WindowNotFuture_start, s) ∧
        WindowNotFuture WindowNotFuture_start) ∧
     (0 < g → st < en → now ≤ st → now < en → campaignCount s = MAX_UINT256 →
        execute env call s = (Err ArithmeticPanic, s)) ∧
     (0 < g → st < en → now ≤ st → now < en → campaignCount s < MAX_UINT256 →
        let id := campaignCount s + 1 in
        ∃ rc s', execute env call s = (Ok rc, s') ∧
          returned rc = Some id ∧ 0 < id ∧
          campaignCount s' = id ∧
          campaignAt s' id = mkCampaign (msg_sender env) g 0 st en false uri ∧
          (∀ id', id' ≠ id → campaigns s' !! id' = campaigns s !! id') ∧
          campaignRewards s' = campaignRewards s ∧
          pledgedAmounts s' = pledgedAmounts s ∧
          totalContributed s' = totalContributed s)) ∧
  (∀ c, reachable c →
     created_ids (chain_history c)
     = ids_down (N.to_nat (campaignCount (chain_state c))) ∧
     NoDup (created_ids (chain_history c)) ∧
     campaigns (chain_state c) !! (campaignCount (chain_state c) + 1) = None).
Proof.
  split.
  - intros env g st en uri s now call. subst now call.
    rewrite execute_createCampaign. split_and!.
    + by intros ->.
    + intros Hg Hw. apply N.ltb_ge in Hw. prop_to_bool. by take_branch.
    + intros Hg Hw Hf. split; [|by left].
      assert (st < block_timestamp env) as Hs by lia.
      apply N.leb_gt in Hs. prop_to_bool. by take_branch.
    + intros Hg Hw Hs He Hc. rewrite Hc. prop_to_bool. by take_branch.
    + intros Hg Hw Hs He Hc id. subst id.
      assert (campaignCount s + 1 ≤ MAX_UINT256) as Hle by lia.
      prop_to_bool. take_branch.
      eexists _, _. split; [done|]. simpl. other_slots.
      split_and!; try done; [lia|].
      intros id' Hne. by rewrite lookup_insert_ne.
  - intros c Hr. rewrite created_ids_reachable by done. split_and!.
    + done.
    + apply ids_down_NoDup.
    + apply unused_above_count_reachable; [done|lia].
Qed.

(** ** Who may call *)

(** C10. [pledge] and [refund] do not look at who the caller is: a pledge
    by the campaign's creator succeeds under the conditions of a pledge by
    anyone else, and after a missed goal every account with a recorded
    amount - the creator included - obtains its refund when the transfer
    goes through. Neither call ever fails with NotCreator; [addReward] and
    [withdraw] do, for every caller other than the creator. *)
Theorem pledge_and_refund_by_anyone :
  (∀ env v id idx s o,
     let cp := campaignAt s id in
     let a := msg_sender env in
     creator cp ≠ 0 → a = creator cp →
     startAt cp ≤ block_timestamp env → block_timestamp env ≤ endAt cp →
     0 < v → tier_outcome v idx (rewardsAt s id) = Ok o →
     pledgedAmountOf s id a + v ≤ MAX_UINT256 →
     pledged cp + v ≤ MAX_UINT256 →
     totalContributedOf s a + v ≤ MAX_UINT256 →
     ∃ rc s', execute env (Pledge v id idx) s = (Ok rc, s') ∧
       pledgedAmountOf s' id a = pledgedAmountOf s id a + v ∧
       pledged (campaignAt s' id) = pledged cp + v) ∧
  (∀ c env id,
     let s := chain_state c in
     let cp := campaignAt s id in
     let a := msg_sender env in
     reachable c →
     creator cp ≠ 0 → endAt cp < block_timestamp env → pledged cp < goal cp →
     0 < pledgedAmountOf s id a → payout_ok env = true →
     ∃ rc s', execute env (Refund id) s = (Ok rc, s') ∧
       payouts rc = [(a, pledgedAmountOf s id a)]) ∧
  (∀ env call s e s',
     execute env call s = (Err e, s') →
     match call with
     | Pledge _ _ _ | Refund _ => ¬ NotCreator e
     | _ => True
     end) ∧
  (∀ env id t d m q s,
     creator (campaignAt s id) ≠ 0 → msg_sender env ≠ creator (campaignAt s id) →
     execute env (AddReward id t d m q) s = (Err NotCreator_addReward, s)) ∧
  (∀ env id s,
     creator (campaignAt s id) ≠ 0 → msg_sender env ≠ creator (campaignAt s id) →
     execute env (Withdraw id) s = (Err NotCreator_withdraw, s)).
Proof.
  split_and!.
  - intros env v id idx s o cp a Hex Ha Hs He Hv Ho H1 H2 H3. subst cp a.
    eexists _, _. split.
    + apply execute_ok. by constructor.
    + by other_slots.
  - intros c env id s cp a Hr Hex He Hg Hb Hp. subst s cp a.
    eexists _, _. split.
    + apply execute_ok. constructor; try done. by apply refund_no_underflow.
    + done.
  - intros env call s e s' H. destruct call; try done.
    + rewrite execute_pledge in H. cbv zeta in H. unfold tier_outcome in H.
      repeat case_match; simplify_eq; intros [?|?]; done.
    + rewrite execute_refund in H. cbv zeta in H.
      repeat case_match; simplify_eq; intros [?|?]; done.
  - intros env id t d m q s Hex Hs. rewrite execute_addReward. cbv zeta.
    prop_to_bool. by take_branch.
  - intros env id s Hex Hs. rewrite execute_withdraw. cbv zeta.
    prop_to_bool. by take_branch.
Qed.

(** * The histories, checked *)

Lemma history_goal_met_reachable : reachable (run history_goal_met).
Proof. apply reachable_run. reflexivity. Qed.

Lemma history_tier_sold_out_reachable : reachable (run history_tier_sold_out).
Proof. apply reachable_run. reflexivity. Qed.

Lemma history_goal_missed_reachable : reachable (run history_goal_missed).
Proof. apply reachable_run. reflexivity. Qed.

Lemma history_creator_pledged_reachable : reachable (run history_creator_pledged).
Proof. apply reachable_run. reflexivity. Qed.

Lemma history_goal_met_outcomes :
  map snd (chain_history (run history_goal_met)) =
  [ Ok (mkReceipt None [Withdrawn 1 120] [(owner, 120)]);
    Ok (mkReceipt None [Pledged 1 alice 60] []);
    Err RewardSoldOut;
    Ok (mkReceipt None [RewardClaimed 1 alice 0; Pledged 1 alice 60] []);
    Ok (mkReceipt None [] []);
    Ok (mkReceipt (Some 1) [CampaignCreated 1 owner 100 10 1000] []) ].
Proof. vm_compute. reflexivity. Qed.

Lemma history_goal_missed_outcomes :
  map snd (chain_history (run history_goal_missed)) =
  [ Ok (mkReceipt None [Refunded 1 alice 30] [(alice, 30)]);
    Ok (mkReceipt None [Pledged 1 alice 30] []);
    Ok (mkReceipt (Some 1) [CampaignCreated 1 owner 100 10 1000] []) ].
Proof. vm_compute. reflexivity. Qed.

(** After a refund the [pledged] field no longer equals the ledger sum:
    [refund] zeroes the ledger entry and leaves [pledged] as it was. *)
Lemma pledged_exceeds_ledger_after_refund :
  let s := chain_state (run history_goal_missed) in
  pledged (campaignAt s 1) = 30 ∧ ledger_sum (ledgerAt s 1) = 0.
Proof. vm_compute. done. Qed.

(** * The theorems at concrete inputs *)

(** Before the withdrawal of the first history the campaign holds 120,
    the sum of its ledger. *)
Lemma conservation_witness :
  let c := run (take 5 history_goal_met) in
  pledged (campaignAt (chain_state c) 1) = ledger_sum (ledgerAt (chain_state c) 1) ∧
  ∀ env rc s',
    execute env (Withdraw 1) (chain_state c) = (Ok rc, s') →
    payouts rc = [(creator (campaignAt (chain_state c) 1),
                   pledged (campaignAt (chain_state c) 1))].
Proof.
  assert (reachable (run (take 5 history_goal_met))) as Hr
    by (apply reachable_run; reflexivity).
  destruct (conservation (run (take 5 history_goal_met)) 1 Hr) as [H1 H2].
  split; [|exact H2].
  apply H1; vm_compute; reflexivity.
Defined.

(** In the first history the creator has withdrawn and nobody was
    refunded. *)
Lemma refund_withdraw_exclusive_witness :
  let c := run history_goal_met in
  ¬ ((0 < withdrawals 1 c)%nat ∧ (0 < refunds 1 c)%nat) ∧
  goal (campaignAt (chain_state c) 1) ≤ pledged (campaignAt (chain_state c) 1).
Proof.
  destruct (refund_withdraw_exclusive (run history_goal_met) 1
              history_goal_met_reachable) as (H1 & H2 & _).
  split; [exact H1|].
  apply H2. vm_compute. lia.
Defined.

(** C2, counterexample. After the creator's successful withdrawal in the
    first history, a [withdraw] call on the same campaign by another
    account fails with "Not creator", not with "Already withdrawn". *)
Lemma withdraw_after_settlement_by_other_account :
  let c := run history_goal_met in
  reachable c ∧ withdrawals 1 c = 1%nat ∧
  admissible c (call_at alice 1002 true (Withdraw 1)) ∧
  (execute (mkEnv alice 1002 true) (Withdraw 1) (chain_state c)).1
    = Err NotCreator_withdraw ∧
  NotCreator_withdraw ≠ AlreadySettled.
Proof.
  split_and!.
  - apply history_goal_met_reachable.
  - vm_compute. reflexivity.
  - vm_compute. discriminate.
  - vm_compute. reflexivity.
  - discriminate.
Qed.

Lemma settled_at_most_once_witness :
  let c := run history_goal_met in
  execute (mkEnv owner 1002 true) (Withdraw 1) (chain_state c)
    = (Err AlreadySettled, chain_state c) ∧
  execute (mkEnv alice 1002 true) (Withdraw 1) (chain_state c)
    = (Err NotCreator_withdraw, chain_state c) ∧
  withdraw_payouts 1 (chain_history c) = [(owner, 120)].
Proof.
  destruct (settled_at_most_once (run history_goal_met) 1
              history_goal_met_reachable) as (_ & _ & _ & H4 & H5).
  split_and!.
  - apply (H4 eq_refl (mkEnv owner 1002 true)). vm_compute. discriminate.
  - apply (H4 eq_refl (mkEnv alice 1002 true)). vm_compute. discriminate.
  - exact H5.
Defined.

(** C4, counterexample. With the tier's only unit taken, a pledge naming
    the tier but offering less than its minimum fails with "Contribution
    below reward minimum", and one made after the campaign's end fails with
    "Campaign inactive": neither fails with "Reward sold out". *)
Lemma pledges_on_sold_out_tier_failing_otherwise :
  let c := run history_tier_sold_out in
  reachable c ∧
  (quantityAvailable <$> rewardsAt (chain_state c) 1 !! 0%nat) = Some 1 ∧
  (claimedCount <$> rewardsAt (chain_state c) 1 !! 0%nat) = Some 1 ∧
  (execute (mkEnv alice 11 true) (Pledge 10 1 0) (chain_state c)).1
    = Err BelowRewardMinimum ∧
  (execute (mkEnv alice 2000 true) (Pledge 60 1 0) (chain_state c)).1
    = Err CampaignInactive ∧
  BelowRewardMinimum ≠ RewardSoldOut ∧ CampaignInactive ≠ RewardSoldOut.
Proof.
  split_and!; try discriminate; try (vm_compute; reflexivity).
  apply history_tier_sold_out_reachable.
Qed.

Lemma reward_scarcity_witness :
  let c := run history_tier_sold_out in
  tier_pledges 1 0 c = 1%nat ∧
  execute (mkEnv alice 11 true) (Pledge 60 1 0) (chain_state c)
    = (Err RewardSoldOut, chain_state c).
Proof.
  destruct (reward_scarcity (run history_tier_sold_out) 1 0
              (mkReward "R1" "Reward 1" 50 1 1)
              history_tier_sold_out_reachable)
    as (_ & H2 & _ & _ & H5).
  - vm_compute. reflexivity.
  - vm_compute. reflexivity.
  - split.
    + apply Nat2N.inj. exact H2.
    + apply (H5 eq_refl (mkEnv alice 11 true) 60); vm_compute; (reflexivity || discriminate).
Defined.

(** The owner's withdrawal at a moment the transfer does not go through. *)
Lemma failed_call_changes_nothing_witness :
  let s := chain_state (run (take 5 history_goal_met)) in
  ∃ f, withdraw (mkEnv owner 1001 false) 1 (mkFrame s [] [])
         = (Err TransferFailed_withdraw, f) ∧
       storage f ≠ s ∧
       execute (mkEnv owner 1001 false) (Withdraw 1) s
         = (Err TransferFailed_withdraw, s).
Proof.
  destruct failed_call_changes_nothing as (_ & H2 & _).
  apply (H2 (mkEnv owner 1001 false) 1); vm_compute; (reflexivity || discriminate).
Defined.

(** C6, counterexample. With the counter at [2^256 - 1] - a value some
    history reaches - a call with a positive goal and a window in the
    future does not succeed: the increment reverts. *)
Lemma createCampaign_counter_exhausted :
  execute (mkEnv owner 0 true) (CreateCampaign 100 10 1000 "ipfs://meta")
    counter_exhausted = (Err ArithmeticPanic, counter_exhausted) ∧
  ∃ c, reachable c ∧ chain_time c = 0 ∧
    (execute (mkEnv owner 0 true) (CreateCampaign 100 10 1000 "ipfs://meta")
       (chain_state c)).1 = Err ArithmeticPanic.
Proof.
  split.
  - rewrite execute_createCampaign. vm_compute. reflexivity.
  - destruct (campaignCount_reachable MAX_UINT256) as (c & Hr & Hc & Ht); [lia|].
    exists c. split_and!; [done..|].
    rewrite execute_createCampaign, Hc. vm_compute. reflexivity.
Qed.

Lemma createCampaign_contract_witness :
  ∃ rc s',
    execute (mkEnv owner 0 true) (CreateCampaign 100 10 1000 "ipfs://meta") genesis
      = (Ok rc, s') ∧
    returned rc = Some 1 ∧
    campaignAt s' 1 = mkCampaign owner 100 0 10 1000 false "ipfs://meta".
Proof.
  destruct createCampaign_contract as [H _].
  destruct (H (mkEnv owner 0 true) 100 10 1000 "ipfs://meta" genesis)
    as (_ & _ & _ & _ & H5).
  destruct H5 as (rc & s' & Hx & Hret & _ & _ & Hc & _);
    try (vm_compute; (reflexivity || discriminate)).
  exists rc, s'. split_and!; [exact Hx|exact Hret|exact Hc].
Defined.

(** The second refund of the second history. *)
Lemma refund_contract_witness :
  let s := chain_state (run history_goal_missed) in
  execute (mkEnv alice 1002 true) (Refund 1) s = (Err NothingToRefund, s).
Proof.
  destruct (refund_contract (mkEnv alice 1002 true) 1
              (chain_state (run history_goal_missed))) as (_ & _ & _ & H4 & _).
  apply H4; vm_compute; (reflexivity || discriminate).
Defined.

(** C8, counterexample. The successful [addReward] of the first history
    emits no event, and the successful pledge that claims the tier emits
    two. *)
Lemma calls_not_emitting_one_event :
  (execute (mkEnv owner 1 true) (AddReward 1 "R1" "Reward 1" 50 1)
     (chain_state (run (take 1 history_goal_met)))).1
  = Ok (mkReceipt None [] []) ∧
  (execute (mkEnv alice 10 true) (Pledge 60 1 0)
     (chain_state (run (take 2 history_goal_met)))).1
  = Ok (mkReceipt None [RewardClaimed 1 alice 0; Pledged 1 alice 60] []).
Proof. split; vm_compute; reflexivity. Qed.

Lemma events_of_successful_calls_witness :
  logs (mkReceipt None [Withdrawn 1 120] [(owner, 120)])
  = [Withdrawn 1 (pledged (campaignAt (chain_state (run (take 5 history_goal_met))) 1))].
Proof.
  apply (events_of_successful_calls (mkEnv owner 1001 true) (Withdraw 1)
           (chain_state (run (take 5 history_goal_met)))
           (mkReceipt None [Withdrawn 1 120] [(owner, 120)])
           (chain_state (run history_goal_met))).
  vm_compute. reflexivity.
Defined.


(** The creator, having pledged 30 to a campaign of their own that missed
    its goal of 100, is refunded. *)
Lemma pledge_and_refund_by_anyone_witness :
  ∃ rc s',
    execute (mkEnv owner 1001 true) (Refund 1)
      (chain_state (run history_creator_pledged)) = (Ok rc, s') ∧
    payouts rc = [(owner, 30)].
Proof.
  destruct pledge_and_refund_by_anyone as (_ & H2 & _).
  destruct (H2 (run history_creator_pledged) (mkEnv owner 1001 true) 1)
    as (rc & s' & Hx & Hp);
    try (vm_compute; (reflexivity || discriminate)).
  - apply history_creator_pledged_reachable.
  - exists rc, s'. split; [exact Hx|exact Hp].
Defined.

(** * Beyond the design document's properties *)

(** ** The remaining calls *)

(** X1. [addReward] fails with "Campaign does not exist" for a campaign that
    does not exist, otherwise with "Only creator can add rewards" when the
    caller is not the creator, otherwise with "Cannot add reward after
    campaign start" when the current time is [startAt] or later. Otherwise
    it succeeds, whatever the minimum and the quantity are: [getRewards]
    then returns the former tiers, unchanged and in their positions,
    followed by the new tier with no claim, and nothing else is written. *)
Theorem addReward_contract env id t d m q s :
  let c := campaignAt s id in
  let call := AddReward id t d m q in
  (creator c = 0 → execute env call s = (Err CampaignNotFound, s)) ∧
  (creator c ≠ 0 → msg_sender env ≠ creator c →
     execute env call s = (Err NotCreator_addReward, s)) ∧
  (creator c ≠ 0 → msg_sender env = creator c → startAt c ≤ block_timestamp env →
     execute env call s = (Err WindowAlreadyOpen, s)) ∧
  (creator c ≠ 0 → msg_sender env = creator c → block_timestamp env < startAt c →
     ∃ rc s', execute env call s = (Ok rc, s')) ∧
  (∀ rc s', execute env call s = (Ok rc, s') →
     getRewards s' id = (getRewards s id ++ [mkReward t d m q 0])%list ∧
     (∀ i r, getRewards s id !! i = Some r → getRewards s' id !! i = Some r) ∧
     (∀ id', id' ≠ id → getRewards s' id' = getRewards s id') ∧
     campaignCount s' = campaignCount s ∧ campaigns s' = campaigns s ∧
     pledgedAmounts s' = pledgedAmounts s ∧
     totalContributed s' = totalContributed s ∧
     payouts rc = []).
Proof.
  intros c call. subst c call. rewrite execute_addReward. cbv zeta. split_and!.
  - intros Hc. prop_to_bool. by take_branch.
  - intros Hc Hs. prop_to_bool. by take_branch.
  - intros Hc Hs Ht. apply N.ltb_ge in Ht. prop_to_bool. by take_branch.
  - intros Hc Hs Ht. prop_to_bool. take_branch. by eexists _, _.
  - intros rc s' H. rewrite <-execute_addReward in H. invert_ok H.
    unfold getRewards. rewrite rewardsAt_set_rewards_eq. split_and!; try done.
    + intros i r Hi. by apply lookup_app_l_Some.
    + intros id' Hne. by rewrite rewardsAt_set_rewards_ne.
Qed.

(** X2. [pledge] fails with "Campaign does not exist" for a campaign that
    does not exist, otherwise with "Campaign inactive" outside
    [startAt, endAt], otherwise with "Must send ETH" for a zero value.
    When it succeeds, the caller's recorded amount for the campaign, the
    campaign's [pledged] total and the caller's global total have each
    grown by exactly the value sent; the campaign's other fields, the other
    campaigns, and every other recorded amount and global total are as
    before, and nothing is paid out. *)
Theorem pledge_contract env v id idx s :
  let c := campaignAt s id in
  let a := msg_sender env in
  let now := block_timestamp env in
  let call := Pledge v id idx in
  (creator c = 0 → execute env call s = (Err CampaignNotFound, s)) ∧
  (creator c ≠ 0 → now < startAt c ∨ endAt c < now →
     execute env call s = (Err CampaignInactive, s)) ∧
  (creator c ≠ 0 → startAt c ≤ now → now ≤ endAt c → v = 0 →
     execute env call s = (Err ZeroAmount, s)) ∧
  (∀ rc s', execute env call s = (Ok rc, s') →
     creator c ≠ 0 ∧ startAt c ≤ now ∧ now ≤ endAt c ∧ 0 < v ∧
     getUserContribution s' id a = getUserContribution s id a + v ∧
     campaignAt s' id = with_pledged (pledged c + v) c ∧
     totalContributedOf s' a = totalContributedOf s a + v ∧
     (∀ id' user, ¬ (id' = id ∧ user = a) →
        getUserContribution s' id' user = getUserContribution s id' user) ∧
     (∀ user, user ≠ a → totalContributedOf s' user = totalContributedOf s user) ∧
     (∀ id', id' ≠ id → campaignAt s' id' = campaignAt s id') ∧
     campaignCount s' = campaignCount s ∧
     payouts rc = []).
Proof.
  intros c a now call. subst c a now call. split_and!.
  - intros Hc. rewrite execute_pledge. cbv zeta. prop_to_bool. by take_branch.
  - intros Hc Ht. rewrite execute_pledge. cbv zeta. prop_to_bool. take_branch.
    assert ((startAt (campaignAt s id) <=? block_timestamp env)
            && (block_timestamp env <=? endAt (campaignAt s id)) = false) as ->; [|done].
    apply andb_false_iff. destruct Ht as [Ht|Ht]; [left|right]; by apply N.leb_gt.
  - intros Hc Hs He ->. rewrite execute_pledge. cbv zeta. prop_to_bool.
    rewrite Hs, He. by take_branch.
  - intros rc s' H. invert_ok H. unfold getUserContribution. other_slots.
    split_and!; try done.
    + intros id' user Hne. other_slots. rewrite pledgedAmountOf_set_pledgedAmount.
      destruct (decide (id = id' ∧ msg_sender env = user)) as [[? ?]|]; [|by other_slots].
      exfalso. apply Hne. by split.
    + intros user Hne. rewrite totalContributedOf_set_totalContributed.
      destruct (decide (msg_sender env = user)); [done|by other_slots].
    + intros id' Hne. other_slots. rewrite campaignAt_set_campaign_ne by done.
      by other_slots.
Qed.

(** X3. [withdraw] succeeds exactly when the campaign exists, the caller is
    its creator, the current time is past [endAt], the goal is reached,
    the funds were not withdrawn before, and the transfer goes through;
    when it fails, the reason is that of the first of these conditions, in
    this order, that does not hold. *)
Theorem withdraw_succeeds_iff env id s :
  let c := campaignAt s id in
  (is_ok (execute env (Withdraw id) s).1 = true ↔
   creator c ≠ 0 ∧ msg_sender env = creator c ∧ endAt c < block_timestamp env ∧
   goal c ≤ pledged c ∧ claimed c = false ∧ payout_ok env = true) ∧
  (execute env (Withdraw id) s).1 =
    (if creator c =? 0 then Err CampaignNotFound
     else if negb (msg_sender env =? creator c) then Err NotCreator_withdraw
     else if block_timestamp env <=? endAt c then Err CampaignNotEnded
     else if pledged c <? goal c then Err GoalNotReached
     else if claimed c then Err AlreadySettled
     else if negb (payout_ok env) then Err TransferFailed_withdraw
     else Ok (mkReceipt None [Withdrawn id (pledged c)] [(creator c, pledged c)])).
Proof.
  intros c. subst c. rewrite execute_withdraw. cbv zeta. split.
  - split.
    + intros H. repeat case_match; simplify_eq; bool_to_prop; done.
    + intros (Hc & Hs & Ht & Hg & Hcl & Hp). prop_to_bool. by take_branch.
  - rewrite (N.leb_antisym (endAt _)), (N.ltb_antisym (goal _)).
    by repeat split_if.
Qed.

(** X4. The fourth [require] of [createCampaign] never fires: whenever the
    first three hold the end is in the future, so no call reverts with
    "End must be in the future". *)
Theorem createCampaign_end_check_is_dead env g st en uri s :
  (execute env (CreateCampaign g st en uri) s).1 ≠ Err WindowNotFuture_end.
Proof.
  rewrite execute_createCampaign.
  repeat case_match; simpl; try discriminate. bool_to_prop. lia.
Qed.

(** ** What every reachable state looks like *)

Lemma later_of_reachable c c' : reachable c → later_of c c' → reachable c'.
Proof. intros Hr. induction 1; [done|]. by constructor. Qed.

Lemma later_of_time c c' : later_of c c' → chain_time c ≤ chain_time c'.
Proof.
  induction 1 as [|c' tx _ IH Hadm]; [lia|].
  rewrite apply_tx_eq. simpl. unfold admissible in Hadm. lia.
Qed.

(** A step from a reachable chain, seen from one campaign. *)
Lemma campaign_step c tx id :
  reachable c → admissible c tx →
  creator (campaignAt (chain_state c) id) ≠ 0 →
  let cp := campaignAt (chain_state c) id in
  let cp' := campaignAt (chain_state (apply_tx tx c)) id in
  creator cp' = creator cp ∧ goal cp' = goal cp ∧
  startAt cp' = startAt cp ∧ endAt cp' = endAt cp ∧
  metadataURI cp' = metadataURI cp ∧
  pledged cp ≤ pledged cp' ∧
  (claimed cp = true → claimed cp' = true).
Proof.
  intros Hr Hadm Hex. rewrite apply_tx_eq. simpl.
  destruct c as [s t h]. destruct tx as [env call]. simpl in *.
  pose proof (unused_above_count_reachable _ Hr) as Hu. simpl in Hu.
  pose proof (existing_campaign_le_count _ _ Hu Hex) as Hle.
  destruct (execute env call s) as [[rc|e] s'] eqn:Hx; simpl.
  2: { rewrite (execute_err _ _ _ _ _ Hx). split_and!; (done || lia). }
  apply execute_ok in Hx. destruct Hx; unfold_locals; other_slots;
    try (split_and!; (done || lia)).
  - rewrite campaignAt_set_campaign_ne by lia. other_slots.
    split_and!; (done || lia).
  - rewrite campaignAt_set_campaign.
    destruct (decide (id0 = id)) as [->|]; other_slots; simpl;
      split_and!; (done || lia).
  - rewrite campaignAt_set_campaign.
    destruct (decide (id0 = id)) as [->|]; simpl; split_and!; (done || lia).
Qed.

Lemma campaign_later c c' id :
  reachable c → later_of c c' →
  creator (campaignAt (chain_state c) id) ≠ 0 →
  let cp := campaignAt (chain_state c) id in
  let cp' := campaignAt (chain_state c') id in
  creator cp' = creator cp ∧ goal cp' = goal cp ∧
  startAt cp' = startAt cp ∧ endAt cp' = endAt cp ∧
  metadataURI cp' = metadataURI cp ∧
  pledged cp ≤ pledged cp' ∧
  (claimed cp = true → claimed cp' = true).
Proof.
  intros Hr Hl Hex. cbv zeta. induction Hl as [|c' tx Hl IH Hadm].
  - split_and!; (done || lia).
  - destruct IH as (I1 & I2 & I3 & I4 & I5 & I6 & I7).
    destruct (campaign_step c' tx id) as (J1 & J2 & J3 & J4 & J5 & J6 & J7);
      [by eapply later_of_reachable|done|congruence|].
    split_and!; try congruence; [lia|tauto].
Qed.

(** X5. Once created, a campaign keeps its creator, goal, window and metadata
    reference for ever; its [pledged] total never decreases (no call
    lowers it, [refund] included) and its [claimed] flag is never
    cleared. *)
Theorem campaign_record_is_stable c c' id :
  reachable c → later_of c c' →
  creator (campaignAt (chain_state c) id) ≠ 0 →
  let cp := campaignAt (chain_state c) id in
  let cp' := campaignAt (chain_state c') id in
  creator cp' = creator cp ∧ goal cp' = goal cp ∧
  startAt cp' = startAt cp ∧ endAt cp' = endAt cp ∧
  metadataURI cp' = metadataURI cp ∧
  pledged cp ≤ pledged cp' ∧
  (claimed cp = true → claimed cp' = true).
Proof. apply campaign_later. Qed.

Lemma campaign_slots_reachable c :
  reachable c →
  ∀ id, match campaigns (chain_state c) !! id with
        | Some cp => 1 ≤ id ≤ campaignCount (chain_state c) ∧
                     0 < goal cp ∧ startAt cp < endAt cp
        | None => id = 0 ∨ campaignCount (chain_state c) < id
        end.
Proof.
  intros Hr. pattern c. revert c Hr. apply reachable_induction; try done.
  - intros id. simpl. rewrite lookup_empty. lia.
  - intros s t h env call rc s' Hr IH _ Hc id. simpl in *.
    assert (∀ id', creator (campaignAt s id') ≠ 0 →
            ∃ cp, campaigns s !! id' = Some cp ∧ campaignAt s id' = cp) as Hsome.
    { intros id' Hex. unfold campaignAt in *.
      destruct (campaigns s !! id'); [by eexists|done]. }
    destruct Hc; unfold_locals; simpl; other_slots; try apply IH.
    + rewrite lookup_insert. destruct (decide (campaignCount s + 1 = id)) as [<-|].
      * simpl. lia.
      * specialize (IH id). destruct (campaigns s !! id); lia.
    + rewrite lookup_insert. destruct (decide (id0 = id)) as [->|]; [|apply IH].
      destruct (Hsome id H) as (cp & Hcp & Heq). rewrite Heq.
      specialize (IH id). rewrite Hcp in IH. simpl. done.
    + rewrite lookup_insert. destruct (decide (id0 = id)) as [->|]; [|apply IH].
      destruct (Hsome id H) as (cp & Hcp & Heq). rewrite Heq.
      specialize (IH id). rewrite Hcp in IH. simpl. done.
Qed.

(** Recorded amounts belong to existing campaigns. *)
Lemma contribution_implies_campaign c :
  reachable c →
  ∀ id user, pledgedAmountOf (chain_state c) id user ≠ 0 →
    creator (campaignAt (chain_state c) id) ≠ 0.
Proof.
  intros Hr. pattern c. revert c Hr. apply reachable_induction; try done.
  intros s t h env call rc s' Hr IH _ Hc id' user. simpl in *.
  pose proof (unused_above_count_reachable _ Hr) as Hu. simpl in Hu.
  destruct Hc; unfold_locals; other_slots; try apply IH.
  - intros Hp. pose proof (IH _ _ Hp) as Hex.
    apply existing_campaign_le_count in Hex as Hle; [|done].
    by rewrite campaignAt_set_campaign_ne by lia.
  - rewrite campaignAt_set_campaign, pledgedAmountOf_set_pledgedAmount.
    destruct (decide (id = id')) as [<-|Hne]; [done|]. other_slots.
    destruct (decide (id = id' ∧ msg_sender env = user)) as [[? ?]|]; [done|].
    other_slots. apply IH.
  - rewrite campaignAt_set_campaign.
    destruct (decide (id = id')) as [<-|Hne]; [done|]. apply IH.
  - rewrite pledgedAmountOf_set_pledgedAmount.
    destruct (decide (id = id' ∧ msg_sender env = user)) as [[? ?]|]; [done|].
    apply IH.
Qed.

(** X6. The campaigns stored are those numbered from 1 to [campaignCount],
    which is what a reader enumerating [campaigns(1..campaignCount)]
    relies on. Every campaign that exists (has a creator) has a positive
    goal and a window with [startAt < endAt]; for an identifier without
    one, [getRewards] is empty and [getUserContribution] is zero for every
    account. *)
Theorem stored_campaigns c :
  reachable c →
  let s := chain_state c in
  (∀ id, is_Some (campaigns s !! id) ↔ 1 ≤ id ≤ campaignCount s) ∧
  (∀ id, creator (campaignAt s id) ≠ 0 →
     1 ≤ id ≤ campaignCount s ∧ 0 < goal (campaignAt s id) ∧
     startAt (campaignAt s id) < endAt (campaignAt s id)) ∧
  (∀ id, creator (campaignAt s id) = 0 →
     getRewards s id = [] ∧ ∀ user, getUserContribution s id user = 0).
Proof.
  intros Hr s. subst s. split_and!.
  - intros id. pose proof (campaign_slots_reachable c Hr id) as H.
    destruct (campaigns (chain_state c) !! id) as [cp|].
    + split; [tauto|]. intros _. by eexists.
    + split; [intros [? ?]; done|]. lia.
  - intros id Hex. pose proof (campaign_slots_reachable c Hr id) as H.
    unfold campaignAt in *. by destruct (campaigns (chain_state c) !! id).
  - intros id Hno. split.
    + unfold getRewards.
      destruct (rewardsAt (chain_state c) id) as [|r rs] eqn:Hrs; [done|].
      exfalso. eapply (tiers_imply_campaign c Hr id 0%nat r); [|done].
      by rewrite Hrs.
    + intros user. unfold getUserContribution.
      destruct (decide (pledgedAmountOf (chain_state c) id user = 0)) as [|Hne]; [done|].
      exfalso. by eapply contribution_implies_campaign.
Qed.

(** ** The ledgers *)

(** X7. In every reachable state an account's [totalContributed] is the sum
    of its recorded amounts over all campaigns; in particular no recorded
    amount exceeds it. *)
Theorem total_contributed_is_sum_of_contributions c user :
  reachable c →
  totalContributedOf (chain_state c) user
    = contributions_of user (pledgedAmounts (chain_state c)) ∧
  ∀ id, getUserContribution (chain_state c) id user
        ≤ totalContributedOf (chain_state c) user.
Proof.
  intros Hr. split.
  - by apply totals_match_reachable.
  - intros id. by apply refund_no_underflow.
Qed.

Lemma sum_payouts_single to amount : sum_payouts [(to, amount)] = amount.
Proof. unfold sum_payouts. simpl. lia. Qed.

(** X8. The amount recorded for an account in a campaign is what the account
    pledged to it minus what it was refunded from it: nobody is ever
    refunded more than they pledged. *)
Theorem recorded_amount_is_net_contribution c id user :
  reachable c →
  pledged_by id user (chain_history c)
    = refunded_to id user (chain_history c)
      + getUserContribution (chain_state c) id user ∧
  refunded_to id user (chain_history c) ≤ pledged_by id user (chain_history c).
Proof.
  intros Hr.
  assert (pledged_by id user (chain_history c)
          = refunded_to id user (chain_history c)
            + pledgedAmountOf (chain_state c) id user) as H; [|split; [done|lia]].
  pattern c. revert c Hr. apply reachable_induction; try done.
  intros s t h env call rc s' _ IH _ Hc. simpl in *.
  destruct Hc; unfold_locals; unfold pledge_of, is_refund_of; simpl;
    other_slots; try done.
  - rewrite pledgedAmountOf_set_pledgedAmount. other_slots.
    destruct (N.eqb_spec id0 id) as [->|Hid]; simpl.
    + destruct (N.eqb_spec (msg_sender env) user) as [->|Hu].
      * destruct (decide (id = id ∧ user = user)) as [|Hn]; [lia|].
        exfalso. by apply Hn.
      * destruct (decide (id = id ∧ msg_sender env = user)) as [[? ?]|]; [done|lia].
    + destruct (decide (id0 = id ∧ msg_sender env = user)) as [[? ?]|]; [done|lia].
  - rewrite pledgedAmountOf_set_pledgedAmount.
    destruct (N.eqb_spec id0 id) as [->|Hid]; simpl.
    + destruct (N.eqb_spec (msg_sender env) user) as [->|Hu].
      * destruct (decide (id = id ∧ user = user)) as [|Hn]; [lia|].
        exfalso. by apply Hn.
      * destruct (decide (id = id ∧ msg_sender env = user)) as [[? ?]|]; [done|lia].
    + destruct (decide (id0 = id ∧ msg_sender env = user)) as [[? ?]|]; [done|lia].
Qed.

(** Sums over a finite map whose summand depends on the key. *)
Section KeyedSums.
Context {A : Type}.

Let ksum (f : N → A → N) (m : gmap N A) : N :=
  map_fold (λ k x acc, f k x + acc) 0 m.

Lemma ksum_insert_fresh f m k v :
  m !! k = None → ksum f (<[k := v]> m) = f k v + ksum f m.
Proof.
  intros Hk. unfold ksum.
  rewrite (map_fold_insert_L (λ k x acc, f k x + acc) 0 k v m); [done| |done].
  intros. lia.
Qed.

Lemma ksum_delete f m k x :
  m !! k = Some x → ksum f m = f k x + ksum f (delete k m).
Proof.
  intros Hk. unfold ksum.
  apply (map_fold_delete_L (λ k y acc, f k y + acc) 0 k x m); [|done].
  intros. lia.
Qed.

Lemma ksum_ext f g m :
  (∀ k x, m !! k = Some x → f k x = g k x) → ksum f m = ksum g m.
Proof.
  induction m as [|k x m Hk IH] using map_ind; intros Hfg.
  - unfold ksum. by rewrite !map_fold_empty.
  - rewrite !ksum_insert_fresh by done. rewrite IH.
    + rewrite (Hfg k x); [done|]. apply lookup_insert_eq.
    + intros k' x' Hk'. apply Hfg. rewrite lookup_insert_ne; [done|].
      intros ->. congruence.
Qed.

Lemma ksum_insert f m k v :
  ksum f (<[k := v]> m) + from_option (f k) 0 (m !! k) = ksum f m + f k v.
Proof.
  destruct (m !! k) as [x|] eqn:Hk; simpl.
  - rewrite <-(insert_delete_eq m k v).
    rewrite ksum_insert_fresh by apply lookup_delete_eq.
    rewrite (ksum_delete f m k x Hk). lia.
  - rewrite ksum_insert_fresh by done. lia.
Qed.

Lemma ksum_change_at f g m k :
  (∀ k' x, k' ≠ k → m !! k' = Some x → f k' x = g k' x) →
  ksum f m + from_option (g k) 0 (m !! k) = ksum g m + from_option (f k) 0 (m !! k).
Proof.
  intros Hfg. destruct (m !! k) as [x|] eqn:Hk; simpl.
  - rewrite (ksum_delete f m k x Hk), (ksum_delete g m k x Hk).
    rewrite (ksum_ext f g (delete k m)); [lia|].
    intros k' x' Hk'. apply lookup_delete_Some in Hk' as [Hne Hk'].
    apply Hfg; done.
  - rewrite (ksum_ext f g m); [lia|].
    intros k' x' Hk'. apply Hfg; [|done]. intros ->. congruence.
Qed.
End KeyedSums.

Lemma outstanding_ext s s' :
  pledgedAmounts s' = pledgedAmounts s →
  (∀ id, claimed (campaignAt s' id) = claimed (campaignAt s id)) →
  outstanding s' = outstanding s.
Proof.
  intros Hp Hc. unfold outstanding. rewrite Hp.
  apply (ksum_ext (λ id m, if claimed (campaignAt s' id) then 0 else ledger_sum m)
                  (λ id m, if claimed (campaignAt s id) then 0 else ledger_sum m)).
  intros id m _. by rewrite Hc.
Qed.

Lemma ledger_sum_ledgerAt s id :
  from_option ledger_sum 0 (pledgedAmounts s !! id) = ledger_sum (ledgerAt s id).
Proof.
  unfold ledgerAt. destruct (pledgedAmounts s !! id); [done|].
  simpl. by rewrite ledger_sum_empty.
Qed.

(** Writing one ledger entry of a campaign whose funds are not withdrawn
    moves [outstanding] by the change of the entry. *)
Lemma outstanding_set_pledgedAmount s id user amount :
  claimed (campaignAt s id) = false →
  outstanding (set_pledgedAmount id user amount s) + pledgedAmountOf s id user
  = outstanding s + amount.
Proof.
  intros Hcl. unfold outstanding. simpl.
  pose proof (ksum_insert
                (λ id' m, if claimed (campaignAt s id') then 0 else ledger_sum m)
                (pledgedAmounts s) id (<[user := amount]> (ledgerAt s id))) as H.
  simpl in H. rewrite Hcl in H.
  assert (from_option (λ m : gmap N N, ledger_sum m) 0 (pledgedAmounts s !! id)
          = ledger_sum (ledgerAt s id)) as Heq by apply ledger_sum_ledgerAt.
  rewrite Heq in H.
  pose proof (ledger_sum_insert (ledgerAt s id) user amount) as Hl.
  fold (pledgedAmountOf s id user) in Hl.
  change (campaignAt (set_pledgedAmount id user amount s)) with (campaignAt s).
  lia.
Qed.

Lemma outstanding_set_claimed s id :
  claimed (campaignAt s id) = false →
  outstanding (set_campaign id (with_claimed true (campaignAt s id)) s)
    + ledger_sum (ledgerAt s id)
  = outstanding s.
Proof.
  intros Hcl. unfold outstanding. simpl.
  set (s' := set_campaign id (with_claimed true (campaignAt s id)) s).
  pose proof (ksum_change_at
                (λ id' m, if claimed (campaignAt s' id') then 0 else ledger_sum m)
                (λ id' m, if claimed (campaignAt s id') then 0 else ledger_sum m)
                (pledgedAmounts s) id) as H.
  assert (∀ k' (x : gmap N N), k' ≠ id → pledgedAmounts s !! k' = Some x →
          (if claimed (campaignAt s' k') then 0 else ledger_sum x)
          = (if claimed (campaignAt s k') then 0 else ledger_sum x)) as Hfg.
  { intros k' x Hne _. unfold s'. by rewrite campaignAt_set_campaign_ne. }
  specialize (H Hfg). rewrite <-ledger_sum_ledgerAt.
  destruct (pledgedAmounts s !! id) as [m|]; simpl in *.
  - unfold s' in H at 2. rewrite campaignAt_set_campaign_eq in H. simpl in H.
    rewrite Hcl in H. lia.
  - lia.
Qed.

(** X9. Accounting. Over any history the value received with successful
    pledges equals the value paid out by successful withdrawals and
    refunds plus what the ledger still owes (the recorded amounts of the
    campaigns not withdrawn). So the contract never pays out more than it
    received, and the value received and not yet paid out is exactly what
    the ledger records for the campaigns not withdrawn. *)
Theorem received_is_paid_plus_outstanding c :
  reachable c →
  received (chain_history c)
    = paid_out (chain_history c) + outstanding (chain_state c) ∧
  paid_out (chain_history c) ≤ received (chain_history c).
Proof.
  intros Hr.
  assert (received (chain_history c)
          = paid_out (chain_history c) + outstanding (chain_state c)) as H;
    [|split; [done|lia]].
  pattern c. revert c Hr. apply reachable_induction.
  - unfold outstanding. simpl. by rewrite map_fold_empty.
  - intros s t h tx e _ IH _ _. simpl in *. done.
  - intros s t h env call rc s' Hr IH Ht Hc.
    cbn [chain_history chain_state received paid_out is_ok tx_call
         value_sent_with payouts] in *.
    pose proof (unused_above_count_reachable _ Hr) as Hu. simpl in Hu.
    pose proof (settlement_inv_reachable _ Hr) as Hset.
    destruct Hc; unfold_locals;
      cbn [value_sent_with payouts sum_payouts foldr snd].
    + rewrite (outstanding_ext s); [lia|done|].
      intros id. rewrite campaignAt_set_campaign.
      destruct (decide (campaignCount s + 1 = id)) as [<-|]; [|done].
      rewrite campaignAt_unused; [done|done|lia].
    + rewrite (outstanding_ext s); [lia|done|done].
    + assert (claimed (campaignAt s id) = false) as Hcl.
      { destruct (claimed (campaignAt s id)) eqn:Hcl; [|done].
        destruct (Hset id) as (_ & _ & I3 & _). simpl in I3.
        destruct (I3 Hcl) as (_ & ? & _). lia. }
      pose proof (outstanding_set_pledgedAmount s id (msg_sender env)
                    (pledgedAmountOf s id (msg_sender env) + v) Hcl) as Ho.
      rewrite (outstanding_ext
                 (set_pledgedAmount id (msg_sender env)
                    (pledgedAmountOf s id (msg_sender env) + v) s)); [lia| |].
      * simpl. by other_slots.
      * intros id'. other_slots. rewrite campaignAt_set_campaign.
        destruct (decide (id = id')) as [<-|]; by other_slots.
    + assert (refunds id (mkChain s t h) = 0%nat) as Hno.
      { destruct (refunds id (mkChain s t h)) eqn:Hn; [done|].
        destruct (Hset id) as (_ & _ & _ & I4 & _). simpl in I4.
        destruct I4 as (_ & _ & ?); lia. }
      pose proof (pledged_is_ledger_sum_until_refund _ Hr id Hno) as Hcons.
      simpl in Hcons.
      pose proof (outstanding_set_claimed s id H3) as Ho. lia.
    + assert (claimed (campaignAt s id) = false) as Hcl.
      { destruct (claimed (campaignAt s id)) eqn:Hcl; [|done].
        destruct (Hset id) as (_ & _ & I3 & _). simpl in I3.
        destruct (I3 Hcl) as (_ & _ & ?). lia. }
      pose proof (outstanding_set_pledgedAmount s id (msg_sender env) 0 Hcl) as Ho.
      rewrite (outstanding_ext (set_pledgedAmount id (msg_sender env) 0 s));
        [lia|done|done].
Qed.

(** ** Reward tiers over time *)

Lemma tiers_step c tx id i r :
  rewardsAt (chain_state c) id !! i = Some r →
  ∃ r', rewardsAt (chain_state (apply_tx tx c)) id !! i = Some r' ∧
        title r' = title r ∧ description r' = description r ∧
        minimumContribution r' = minimumContribution r ∧
        quantityAvailable r' = quantityAvailable r ∧
        claimedCount r ≤ claimedCount r' ≤ claimedCount r + 1.
Proof.
  intros Hl. rewrite apply_tx_eq. simpl.
  destruct c as [s t h]. destruct tx as [env call]. simpl in *.
  assert (∃ r', rewardsAt s id !! i = Some r' ∧
        title r' = title r ∧ description r' = description r ∧
        minimumContribution r' = minimumContribution r ∧
        quantityAvailable r' = quantityAvailable r ∧
        claimedCount r ≤ claimedCount r' ≤ claimedCount r + 1) as Hsame.
  { exists r. split_and!; (done || lia). }
  destruct (execute env call s) as [[rc|e] s'] eqn:Hx; simpl.
  2: { by rewrite (execute_err _ _ _ _ _ Hx). }
  apply execute_ok in Hx. destruct Hx; unfold_locals; other_slots; try done.
  - rewrite rewardsAt_set_rewards. destruct (decide (id0 = id)) as [->|]; [|done].
    exists r. rewrite lookup_app_l by (by eapply lookup_lt_Some).
    split_and!; (done || lia).
  - destruct o as [rs'|]; simpl; other_slots; [|done].
    rewrite rewardsAt_set_rewards. destruct (decide (id0 = id)) as [->|]; [|done].
    apply tier_outcome_claimed in H3 as (r0 & Hr0 & _ & _ & _ & ->).
    destruct (decide (N.to_nat idx = i)) as [<-|Hne].
    + rewrite list_lookup_insert_eq by (by eapply lookup_lt_Some).
      eexists. split; [done|]. simplify_eq. simpl. split_and!; (done || lia).
    + rewrite list_lookup_insert_ne by done. done.
Qed.

Lemma tiers_length_step c tx id :
  reachable c → admissible c tx →
  creator (campaignAt (chain_state c) id) ≠ 0 →
  startAt (campaignAt (chain_state c) id) ≤ chain_time c →
  length (rewardsAt (chain_state (apply_tx tx c)) id)
  = length (rewardsAt (chain_state c) id).
Proof.
  intros Hr Hadm Hex Hst. rewrite apply_tx_eq. simpl.
  destruct c as [s t h]. destruct tx as [env call]. unfold admissible in Hadm.
  simpl in *.
  destruct (execute env call s) as [[rc|e] s'] eqn:Hx; simpl.
  2: { by rewrite (execute_err _ _ _ _ _ Hx). }
  apply execute_ok in Hx. destruct Hx; unfold_locals; other_slots; try done.
  - rewrite rewardsAt_set_rewards. destruct (decide (id0 = id)) as [->|]; [lia|done].
  - destruct o as [rs'|]; simpl; other_slots; [|done].
    rewrite rewardsAt_set_rewards. destruct (decide (id0 = id)) as [->|]; [|done].
    apply tier_outcome_claimed in H3 as (r0 & Hr0 & _ & _ & _ & ->).
    by rewrite length_insert.
Qed.

(** X10. Tiers are append-only. A tier, once added, keeps its position, title,
    description, minimum and quantity in every later state, and its
    [claimedCount] never decreases; and from the moment the campaign has
    started no tier can be added, so the number of tiers [getRewards]
    returns is final. *)
Theorem tiers_are_append_only c c' id :
  reachable c → later_of c c' →
  (∀ i r, getRewards (chain_state c) id !! i = Some r →
     ∃ r', getRewards (chain_state c') id !! i = Some r' ∧
           title r' = title r ∧ description r' = description r ∧
           minimumContribution r' = minimumContribution r ∧
           quantityAvailable r' = quantityAvailable r ∧
           claimedCount r ≤ claimedCount r') ∧
  (creator (campaignAt (chain_state c) id) ≠ 0 →
   startAt (campaignAt (chain_state c) id) ≤ chain_time c →
   length (getRewards (chain_state c') id) = length (getRewards (chain_state c) id)).
Proof.
  intros Hr Hl. unfold getRewards. split.
  - induction Hl as [|c' tx Hl IH Hadm]; intros i r Hi.
    + exists r. split_and!; (done || lia).
    + destruct (IH i r Hi) as (r1 & Hr1 & ? & ? & ? & ? & ?).
      destruct (tiers_step c' tx id i r1 Hr1) as (r2 & Hr2 & ? & ? & ? & ? & ?).
      exists r2. split_and!; try congruence. lia.
  - intros Hex Hst. induction Hl as [|c' tx Hl IH Hadm]; [done|].
    rewrite <-IH.
    destruct (campaign_later c c' id Hr Hl Hex) as (Hc & _ & Hs & _).
    apply tiers_length_step; [by eapply later_of_reachable|done|congruence|].
    rewrite Hs. pose proof (later_of_time _ _ Hl). lia.
Qed.

Lemma is_pledge_same id env v idx : is_pledge id (mkTx env (Pledge v id idx)) = true.
Proof. unfold is_pledge. simpl. apply N.eqb_refl. Qed.

Lemma pledged_campaign_has_started c :
  reachable c →
  ∀ id, (0 < pledges id c)%nat →
    creator (campaignAt (chain_state c) id) ≠ 0 ∧
    startAt (campaignAt (chain_state c) id) ≤ chain_time c.
Proof.
  intros Hr. pattern c. revert c Hr. apply reachable_induction.
  - intros id. unfold pledges. simpl. lia.
  - intros s t h tx e _ IH Ht _ id. unfold pledges in *. simpl in *.
    rewrite andb_false_r. simpl. intros Hp. destruct (IH id Hp). split; [done|lia].
  - intros s t h env call rc s' Hr IH Ht Hc id.
    pose proof (unused_above_count_reachable _ Hr) as Hu. simpl in Hu.
    unfold pledges in *. simpl in *.
    assert (∀ id', (0 < count_success (is_pledge id') h)%nat →
            id' ≤ campaignCount s) as Hle.
    { intros id' Hp. destruct (IH id' Hp) as [Hex _].
      by apply existing_campaign_le_count. }
    destruct Hc; unfold_locals; unfold is_pledge at 1; simpl; other_slots.
    + intros Hp. pose proof (Hle id Hp).
      rewrite campaignAt_set_campaign_ne by lia. other_slots.
      destruct (IH id Hp). split; [done|lia].
    + intros Hp. destruct (IH id Hp). split; [done|lia].
    + rewrite campaignAt_set_campaign.
      destruct (N.eqb_spec id0 id) as [->|Hne]; simpl.
      * intros _. destruct (decide (id = id)); [|done]. simpl. done.
      * destruct (decide (id0 = id)); [done|]. other_slots.
        intros Hp. destruct (IH id Hp). split; [done|lia].
    + rewrite campaignAt_set_campaign.
      intros Hp. destruct (IH id Hp).
      destruct (decide (id0 = id)) as [->|]; simpl; (split; [done|lia]).
    + intros Hp. destruct (IH id Hp). split; [done|lia].
Qed.

(** X11. No tier is ever added to a campaign that has received a pledge: once
    a pledge to the campaign has succeeded, every [addReward] on it fails
    ("Cannot add reward after campaign start" for the creator, "Only
    creator can add rewards" for anyone else), so contributors never see
    the list of tiers they chose from grow. *)
Theorem no_tier_after_first_pledge c id :
  reachable c → (0 < pledges id c)%nat →
  let s := chain_state c in
  (∀ env t d m q, chain_time c ≤ block_timestamp env →
     execute env (AddReward id t d m q) s =
     (Err (if msg_sender env =? creator (campaignAt s id)
           then WindowAlreadyOpen else NotCreator_addReward), s)) ∧
  (∀ c', later_of c c' →
     length (getRewards (chain_state c') id) = length (getRewards s id)).
Proof.
  intros Hr Hp s. subst s.
  destruct (pledged_campaign_has_started c Hr id Hp) as [Hex Hst]. split.
  - intros env t d m q Ht. rewrite execute_addReward. cbv zeta.
    assert (startAt (campaignAt (chain_state c) id) ≤ block_timestamp env) as Hs by lia.
    apply N.ltb_ge in Hs. prop_to_bool.
    destruct (msg_sender env =? creator (campaignAt (chain_state c) id)) eqn:Hc;
      by take_branch.
  - intros c' Hl. unfold getRewards.
    induction Hl as [|c' tx Hl IH Hadm]; [done|].
    rewrite <-IH.
    destruct (campaign_later c c' id Hr Hl Hex) as (Hc & _ & Hs & _).
    apply tiers_length_step; [by eapply later_of_reachable|done|congruence|].
    rewrite Hs. pose proof (later_of_time _ _ Hl). lia.
Qed.

(** * Calls back into the contract, proved harmless *)

(** ** A transaction with calls back is a sequence of calls *)

Lemma Reaction_induction (P : Reaction → Prop) :
  (∀ ok cs, Forall (λ cb, P (callback_reaction cb)) cs → P (React ok cs)) →
  ∀ r, P r.
Proof.
  intros H. fix IH 1. intros [ok cs]. apply H.
  induction cs as [|[sender call r] cs IHcs]; constructor; [apply IH|apply IHcs].
Qed.

Lemma run_re_eq now sender call ok cs s :
  run_re now sender call (React ok cs) s =
  let env := mkEnv sender now ok in
  match call with
  | CreateCampaign g st en uri => transact Some (createCampaign env g st en uri) s
  | AddReward id t d m q => transact (λ _, None) (addReward env id t d m q) s
  | Pledge v id idx => transact (λ _, None) (pledge env v id idx) s
  | Withdraw id => transact (λ _, None) (withdraw_re (send_re now ok cs) env id) s
  | Refund id => transact (λ _, None) (refund_re (send_re now ok cs) env id) s
  end.
Proof. reflexivity. Qed.

Lemma serve_cons now sender call r cs f :
  serve now (Back sender call r :: cs) f
  = serve now cs (absorb (run_re now sender call r (storage f)) f).
Proof. done. Qed.

(** [createCampaign], [addReward] and [pledge] pay nobody. *)
Lemma run_re_createCampaign now sender g st en uri r s :
  run_re now sender (CreateCampaign g st en uri) r s
  = execute (mkEnv sender now (accepts r)) (CreateCampaign g st en uri) s.
Proof. by destruct r. Qed.

Lemma run_re_addReward now sender id t d m q r s :
  run_re now sender (AddReward id t d m q) r s
  = execute (mkEnv sender now (accepts r)) (AddReward id t d m q) s.
Proof. by destruct r. Qed.

Lemma run_re_pledge now sender v id idx r s :
  run_re now sender (Pledge v id idx) r s
  = execute (mkEnv sender now (accepts r)) (Pledge v id idx) s.
Proof. by destruct r. Qed.

(** [withdraw] and [refund] have made all their writes when they pay: the
    calls made back start from the storage the call alone would leave, and
    no check follows them but that of the transfer's result. *)
Lemma run_re_withdraw now sender id ok cs s :
  run_re now sender (Withdraw id) (React ok cs) s =
  match execute (mkEnv sender now ok) (Withdraw id) s with
  | (Ok rc0, s0) =>
      let f := serve now cs (mkFrame s0 [] (payouts rc0)) in
      (Ok (mkReceipt None (emitted f ++ logs rc0) (transfers f)), storage f)
  | (Err e, _) => (Err e, s)
  end.
Proof.
  rewrite execute_withdraw, run_re_eq. cbv zeta.
  unfold transact, withdraw_re, send_re, bind, require, sload, sstore, emit,
    revert, ret; simpl.
  repeat split_if.
Qed.

Lemma run_re_refund now sender id ok cs s :
  run_re now sender (Refund id) (React ok cs) s =
  match execute (mkEnv sender now ok) (Refund id) s with
  | (Ok rc0, s0) =>
      let f := serve now cs (mkFrame s0 [] (payouts rc0)) in
      (Ok (mkReceipt None (emitted f ++ logs rc0) (transfers f)), storage f)
  | (Err e, _) => (Err e, s)
  end.
Proof.
  rewrite execute_refund, run_re_eq. cbv zeta.
  unfold transact, refund_re, send_re, bind, require, sload, sstore, emit,
    checked_sub, revert, ret; simpl.
  repeat split_if.
Qed.

(** Without a call back, [run_re] is [execute]. *)
Lemma run_re_alone now sender call ok s :
  run_re now sender call (React ok []) s = execute (mkEnv sender now ok) call s.
Proof. by destruct call. Qed.

Lemma later_of_trans c1 c2 c3 : later_of c1 c2 → later_of c2 c3 → later_of c1 c3.
Proof. intros H12. induction 1; [done|]. by constructor. Qed.

Lemma later_of_apply_tx c tx :
  admissible c tx → later_of c (apply_tx tx c).
Proof. intros H. by repeat constructor. Qed.

Lemma absorb_storage r f :
  (∀ e s, r = (Err e, s) → s = storage f) → storage (absorb r f) = r.2.
Proof.
  destruct r as [[rc|e] s]; simpl; [done|]. intros H. symmetry. by eapply H.
Qed.

Lemma serve_later_if now cs :
  Forall (λ cb, as_chain_step now (callback_reaction cb)) cs →
  ∀ c f, reachable c → chain_time c = now → storage f = chain_state c →
    ∃ c', later_of c c' ∧ chain_time c' = now ∧
          chain_state c' = storage (serve now cs f).
Proof.
  induction 1 as [|[sender call r] cs Hcb _ IH]; intros c f Hr Ht Hf.
  - exists c. split_and!; [constructor|done|done].
  - rewrite serve_cons.
    destruct (Hcb sender call c Hr) as (c1 & Hl1 & Ht1 & Hs1 & He1); [lia|].
    destruct (IH c1 (absorb (run_re now sender call r (storage f)) f))
      as (c2 & Hl2 & Ht2 & Hs2).
    + by eapply later_of_reachable.
    + done.
    + rewrite absorb_storage; rewrite Hf; [done|]. intros e s' He.
      by eapply He1.
    + exists c2. split_and!; [by eapply later_of_trans|done|done].
Qed.

Lemma run_re_as_chain_step now r : as_chain_step now r.
Proof.
  induction r as [ok cs IH] using Reaction_induction.
  intros sender call c Hr Ht.
  set (tx := mkTx (mkEnv sender now ok) call).
  assert (admissible c tx) as Hadm by done.
  assert (reachable (apply_tx tx c)) as Hr0 by by constructor.
  pose proof (later_of_apply_tx c tx Hadm) as Hl0.
  pose proof (apply_tx_eq tx c) as Heq. simpl in Heq.
  assert (∀ rc0 s0, execute (mkEnv sender now ok) call (chain_state c) = (Ok rc0, s0) →
            ∀ tr, ∃ c', later_of c c' ∧ chain_time c' = now ∧
              chain_state c' = storage (serve now cs (mkFrame s0 [] tr))) as Hok.
  { intros rc0 s0 Hx tr.
    destruct (serve_later_if now cs IH (apply_tx tx c) (mkFrame s0 [] tr))
      as (c' & Hl & Ht' & Hs'); try done.
    - by rewrite Heq.
    - by rewrite Heq, Hx.
    - exists c'. split_and!; [by eapply later_of_trans|done|done]. }
  assert (∃ c', later_of c c' ∧ chain_time c' = now ∧
            chain_state c' = (execute (mkEnv sender now ok) call (chain_state c)).2)
    as Hplain.
  { exists (apply_tx tx c). split_and!; [done|by rewrite Heq|by rewrite Heq]. }
  destruct call as [g st en uri|id t d m q|v id idx|id|id].
  - rewrite run_re_createCampaign. cbn [accepts].
    destruct Hplain as (c' & ? & ? & ?). exists c'. split_and!; try done.
    intros e s'. apply execute_err.
  - rewrite run_re_addReward. cbn [accepts].
    destruct Hplain as (c' & ? & ? & ?). exists c'. split_and!; try done.
    intros e s'. apply execute_err.
  - rewrite run_re_pledge. cbn [accepts].
    destruct Hplain as (c' & ? & ? & ?). exists c'. split_and!; try done.
    intros e s'. apply execute_err.
  - rewrite run_re_withdraw.
    destruct (execute (mkEnv sender now ok) (Withdraw id) (chain_state c))
      as [[rc0|e] s0] eqn:Hx.
    + destruct (Hok rc0 s0 eq_refl (payouts rc0)) as (c' & ? & ? & ?).
      exists c'. by split_and!.
    + destruct Hplain as (c' & ? & ? & Hs). exists c'.
      simpl in Hs. rewrite (execute_err _ _ _ _ _ Hx) in Hs.
      split_and!; try done. intros; by simplify_eq.
  - rewrite run_re_refund.
    destruct (execute (mkEnv sender now ok) (Refund id) (chain_state c))
      as [[rc0|e] s0] eqn:Hx.
    + destruct (Hok rc0 s0 eq_refl (payouts rc0)) as (c' & ? & ? & ?).
      exists c'. by split_and!.
    + destruct Hplain as (c' & ? & ? & Hs). exists c'.
      simpl in Hs. rewrite (execute_err _ _ _ _ _ Hx) in Hs.
      split_and!; try done. intros; by simplify_eq.
Qed.

Lemma serve_later now cs c f :
  reachable c → chain_time c = now → storage f = chain_state c →
  ∃ c', later_of c c' ∧ chain_time c' = now ∧
        chain_state c' = storage (serve now cs f).
Proof.
  apply serve_later_if. apply Forall_forall. intros cb _.
  apply run_re_as_chain_step.
Qed.

(** Calls back reach no storage that calls served one at a time do not
    reach, and the other way round. *)
Lemma reachable_re_chain s t :
  reachable_re s t ↔ ∃ c, reachable c ∧ chain_state c = s ∧ chain_time c = t.
Proof.
  split.
  - induction 1 as [|s t now sender call r _ (c & Hr & <- & <-) Ht].
    + exists deployed. split_and!; [constructor|done|done].
    + destruct (run_re_as_chain_step now r sender call c Hr Ht)
        as (c' & Hl & Ht' & Hs' & _).
      exists c'. split_and!; [by eapply later_of_reachable|done|done].
  - intros (c & Hr & <- & <-). induction Hr as [|c [[sender now ok] call] Hr IH Hadm].
    + constructor.
    + rewrite apply_tx_eq. cbn [chain_state chain_time tx_env tx_call
        msg_sender block_timestamp payout_ok].
      rewrite <-run_re_alone.
      by apply (reach_re_step _ (chain_time c)).
Qed.

(** ** A campaign that can be settled, from then on *)

(** After the end of a campaign that met its goal, no call writes its
    ledger or its tiers. *)
Lemma goal_met_step c tx id :
  reachable c → admissible c tx →
  creator (campaignAt (chain_state c) id) ≠ 0 →
  endAt (campaignAt (chain_state c) id) < chain_time c →
  goal (campaignAt (chain_state c) id) ≤ pledged (campaignAt (chain_state c) id) →
  ledgerAt (chain_state (apply_tx tx c)) id = ledgerAt (chain_state c) id ∧
  rewardsAt (chain_state (apply_tx tx c)) id = rewardsAt (chain_state c) id.
Proof.
  intros Hr Hadm Hex Hend Hgoal. rewrite apply_tx_eq. simpl.
  pose proof (campaign_slots_reachable c Hr id) as Hsl.
  assert (startAt (campaignAt (chain_state c) id)
          < endAt (campaignAt (chain_state c) id)) as Hw.
  { unfold campaignAt in *.
    by destruct (campaigns (chain_state c) !! id) as [cp|]; [apply Hsl|]. }
  clear Hsl.
  destruct c as [s t h]. destruct tx as [env call]. unfold admissible in Hadm.
  simpl in *.
  destruct (execute env call s) as [[rc|e] s'] eqn:Hx; simpl.
  2: { by rewrite (execute_err _ _ _ _ _ Hx). }
  apply execute_ok in Hx. destruct Hx; unfold_locals; other_slots; try done.
  - rewrite rewardsAt_set_rewards.
    destruct (decide (id0 = id)) as [->|]; [lia|done].
  - rewrite ledgerAt_set_pledgedAmount.
    destruct (decide (id0 = id)) as [->|]; [lia|].
    destruct o as [rs'|]; simpl; other_slots; [|done].
    by rewrite rewardsAt_set_rewards_ne.
  - rewrite ledgerAt_set_pledgedAmount.
    destruct (decide (id0 = id)) as [->|]; [lia|done].
Qed.

Lemma goal_met_later c c' id :
  reachable c → later_of c c' →
  creator (campaignAt (chain_state c) id) ≠ 0 →
  endAt (campaignAt (chain_state c) id) < chain_time c →
  goal (campaignAt (chain_state c) id) ≤ pledged (campaignAt (chain_state c) id) →
  let cp := campaignAt (chain_state c) id in
  let cp' := campaignAt (chain_state c') id in
  creator cp' = creator cp ∧ goal cp' = goal cp ∧ pledged cp' = pledged cp ∧
  startAt cp' = startAt cp ∧ endAt cp' = endAt cp ∧
  metadataURI cp' = metadataURI cp ∧
  (claimed cp = true → claimed cp' = true) ∧
  ledgerAt (chain_state c') id = ledgerAt (chain_state c) id ∧
  rewardsAt (chain_state c') id = rewardsAt (chain_state c) id.
Proof.
  intros Hr Hl Hex Hend Hgoal. cbv zeta. induction Hl as [|c' tx Hl IH Hadm].
  - by split_and!.
  - destruct IH as (I1 & I2 & I3 & I4 & I5 & I6 & I7 & I8 & I9).
    pose proof (later_of_reachable _ _ Hr Hl) as Hr'.
    pose proof (later_of_time _ _ Hl) as Ht'.
    destruct (campaign_frozen_after_end c' id tx) as (J1 & J2 & J3 & J4 & J5);
      [done|done|congruence|rewrite I5; lia|].
    destruct (campaign_step c' tx id) as (_ & _ & _ & _ & K5 & _ & K7);
      [done|done|congruence|].
    destruct (goal_met_step c' tx id) as (L1 & L2);
      [done|done|congruence|rewrite I5; lia|rewrite I2, I3; lia|].
    split_and!; try congruence. tauto.
Qed.

(** C9, as the code has it. A [withdraw] that succeeds has itself written
    the [claimed] flag of its campaign and nothing else. When the account
    it pays makes no call back into the contract, that is all that
    changes: the campaign's other fields ([pledged] in particular), every
    other campaign, the campaign counter, the reward tiers, every recorded
    pledge amount and every global total are as before. When it does call
    back - nothing in the contract prevents it - the storage at the end is
    what those calls, served in order, make of the storage with the flag
    set; whatever they are, in a storage the contract can be in the
    campaign withdrawn keeps its creator, goal, [pledged] total, window
    and metadata, its recorded pledge amounts and its tiers, so that reads
    after the withdrawal still report the full amounts. *)
Theorem withdraw_frame :
  (∀ now sender ok id s rc s',
     run_re now sender (Withdraw id) (React ok []) s = (Ok rc, s') →
     let c := campaignAt s id in
     let c' := campaignAt s' id in
     claimed c = false ∧ claimed c' = true ∧
     creator c' = creator c ∧ goal c' = goal c ∧ pledged c' = pledged c ∧
     startAt c' = startAt c ∧ endAt c' = endAt c ∧ metadataURI c' = metadataURI c ∧
     (∀ id', id' ≠ id → campaigns s' !! id' = campaigns s !! id') ∧
     campaignCount s' = campaignCount s ∧
     campaignRewards s' = campaignRewards s ∧
     pledgedAmounts s' = pledgedAmounts s ∧
     totalContributed s' = totalContributed s ∧
     (∀ id' user, getUserContribution s' id' user = getUserContribution s id' user) ∧
     (∀ id', getRewards s' id' = getRewards s id')) ∧
  (∀ now sender r id s rc s',
     run_re now sender (Withdraw id) r s = (Ok rc, s') →
     accepts r = true ∧
     s' = storage (serve now (calls_back r)
                     (mkFrame (set_campaign id (with_claimed true (campaignAt s id)) s)
                        [] [(creator (campaignAt s id), pledged (campaignAt s id))]))) ∧
  (∀ now sender r id s t rc s',
     reachable_re s t → t ≤ now →
     run_re now sender (Withdraw id) r s = (Ok rc, s') →
     let c := campaignAt s id in
     let c' := campaignAt s' id in
     claimed c = false ∧ claimed c' = true ∧
     creator c' = creator c ∧ goal c' = goal c ∧ pledged c' = pledged c ∧
     startAt c' = startAt c ∧ endAt c' = endAt c ∧ metadataURI c' = metadataURI c ∧
     (∀ user, getUserContribution s' id user = getUserContribution s id user) ∧
     getRewards s' id = getRewards s id).
Proof.
  assert (∀ now sender r id s rc s',
            run_re now sender (Withdraw id) r s = (Ok rc, s') →
            ∃ rc0,
              commits (mkEnv sender now (accepts r)) s (Withdraw id) rc0
                (set_campaign id (with_claimed true (campaignAt s id)) s) ∧
              accepts r = true ∧
              s' = storage (serve now (calls_back r)
                     (mkFrame (set_campaign id (with_claimed true (campaignAt s id)) s)
                        [] [(creator (campaignAt s id), pledged (campaignAt s id))])))
    as Hshape.
  { intros now sender [ok cs] id s rc s' H. rewrite run_re_withdraw in H.
    destruct (execute _ _ _) as [[rc0|e] s0] eqn:Hx; [|done].
    apply execute_ok in Hx. exists rc0. inversion Hx; subst. simpl in *.
    split_and!; [done|done|]. by simplify_eq. }
  split_and!.
  - intros now sender ok id s rc s' H. rewrite run_re_alone in H.
    by apply (withdraw_alone _ _ _ _ _ H).
  - intros now sender r id s rc s' H.
    by destruct (Hshape _ _ _ _ _ _ _ H) as (_ & _ & ? & ?).
  - intros now sender r id s t rc s' Hre Ht H c c'. subst c c'.
    destruct (Hshape _ _ _ _ _ _ _ H) as (rc0 & Hc & Hok & ->).
    apply reachable_re_chain in Hre as (ch & Hr & <- & <-).
    pose proof Hc as Hx. apply execute_ok in Hx.
    inversion Hc as [| | |id' Hex Hsnd Hend Hgoal Hcl Hpay|]; subst.
    unfold_locals. cbn [msg_sender block_timestamp payout_ok] in *.
    set (tx := mkTx (mkEnv sender now (accepts r)) (Withdraw id)).
    set (s0 := set_campaign id (with_claimed true (campaignAt (chain_state ch) id))
                 (chain_state ch)).
    assert (admissible ch tx) as Hadm by done.
    assert (chain_state (apply_tx tx ch) = s0 ∧ chain_time (apply_tx tx ch) = now)
      as [Hst Htm].
    { rewrite apply_tx_eq. unfold tx. cbn [tx_env tx_call block_timestamp].
      by rewrite Hx. }
    assert (campaignAt s0 id = with_claimed true (campaignAt (chain_state ch) id))
      as Hc0 by apply campaignAt_set_campaign_eq.
    destruct (serve_later now (calls_back r) (apply_tx tx ch)
                (mkFrame s0 [] [(creator (campaignAt (chain_state ch) id),
                                 pledged (campaignAt (chain_state ch) id))]))
      as (ch' & Hl & _ & Hs'); [by constructor|done|done|].
    rewrite <-Hs'.
    destruct (goal_met_later (apply_tx tx ch) ch' id)
      as (G1 & G2 & G3 & G4 & G5 & G6 & G7 & G8 & G9);
      [by constructor|done|..].
    1-3: rewrite ?Hst, ?Htm, ?Hc0; by simpl.
    rewrite Hst in G1, G2, G3, G4, G5, G6, G7, G8, G9.
    rewrite Hc0 in G1, G2, G3, G4, G5, G6, G7. simpl in G1, G2, G3, G4, G5, G6, G7.
    unfold getUserContribution, getRewards, pledgedAmountOf.
    rewrite G8, G9. unfold s0. other_slots.
    split_and!; try done. by apply G7.
Qed.

(** C9, counterexample. In the first history the creator, while being
    paid, creates a second campaign and pledges 5 to it. The withdrawal
    succeeds, and at its end the campaign counter, the campaigns stored, a
    recorded pledge amount and a global total have all changed. *)
Lemma withdraw_with_creator_calling_back :
  let s := chain_state (run (take 5 history_goal_met)) in
  reachable_re s 12 ∧
  ∃ rc s',
    run_re 1001 owner (Withdraw 1) creator_calls_back s = (Ok rc, s') ∧
    campaignCount s = 1 ∧ campaignCount s' = 2 ∧
    campaigns s !! 2 = None ∧
    campaigns s' !! 2 = Some (mkCampaign owner 50 5 1001 3000 false "ipfs://second") ∧
    getUserContribution s 2 owner = 0 ∧ getUserContribution s' 2 owner = 5 ∧
    totalContributedOf s owner = 0 ∧ totalContributedOf s' owner = 5.
Proof.
  split.
  - apply reachable_re_chain. exists (run (take 5 history_goal_met)).
    split_and!; [by apply reachable_run|done|done].
  - eexists _, _. split; [by vm_compute|]. by vm_compute.
Qed.

(** The same withdrawal: the campaign withdrawn reads as before. *)
Lemma withdraw_frame_witness :
  let s := chain_state (run (take 5 history_goal_met)) in
  ∃ rc s',
    run_re 1001 owner (Withdraw 1) creator_calls_back s = (Ok rc, s') ∧
    claimed (campaignAt s' 1) = true ∧
    pledged (campaignAt s' 1) = 120 ∧
    getUserContribution s' 1 alice = 120 ∧
    getRewards s' 1 = getRewards s 1.
Proof.
  destruct withdraw_frame as (_ & _ & H).
  destruct (run_re 1001 owner (Withdraw 1) creator_calls_back
              (chain_state (run (take 5 history_goal_met))))
    as [[rc|e] s'] eqn:Hx; [|by vm_compute in Hx].
  destruct (H 1001 owner creator_calls_back 1
              (chain_state (run (take 5 history_goal_met))) 12 rc s')
    as (_ & H2 & _ & _ & H5 & _ & _ & _ & H9 & H10).
  - apply reachable_re_chain. exists (run (take 5 history_goal_met)).
    split_and!; [by apply reachable_run|done|done].
  - by vm_compute.
  - exact Hx.
  - exists rc, s'. split_and!; [done|exact H2| | |exact H10].
    + rewrite H5. by vm_compute.
    + rewrite H9. by vm_compute.
Defined.

(** * The front end against the contract *)

(** ** The address book *)

Lemma USER_MAPPING_entries :
  Forall (λ u, UserMapping.name u ≠ "Unknown" ∧ 1 ≤ UserMapping.id u ≤ 20 ∧
               UserMapping.address u ≠ "")
         UserMapping.USER_MAPPING.
Proof. repeat constructor; (done || lia). Qed.

Lemma getUserByAddress_Some addr u :
  UserMapping.getUserByAddress addr = Some u →
  u ∈ UserMapping.USER_MAPPING ∧ UserMapping.address u = addr.
Proof.
  unfold UserMapping.getUserByAddress.
  destruct (String.eqb addr ""); [done|]. intros H.
  apply find_some in H as [Hin Heq]. split.
  - by apply list_elem_of_In.
  - by apply String.eqb_eq.
Qed.

(** X12. The four lookups agree on who is known: for every address,
    [isKnownUser] is false exactly when [getUserByAddress] finds nobody,
    exactly when [getUserDisplayName] is "Unknown" and exactly when
    [getUserId] is 0 - no entry of the table is named "Unknown" or numbered
    0, so the two defaults cannot be mistaken for a user; a known user has
    a number from 1 to 20; the empty address is unknown. *)
Theorem user_lookups_agree addr :
  (UserMapping.isKnownUser addr = false ↔ UserMapping.getUserByAddress addr = None) ∧
  (UserMapping.isKnownUser addr = false ↔ UserMapping.getUserDisplayName addr = "Unknown") ∧
  (UserMapping.isKnownUser addr = false ↔ UserMapping.getUserId addr = 0) ∧
  (UserMapping.isKnownUser addr = true ↔ 1 ≤ UserMapping.getUserId addr ≤ 20) ∧
  UserMapping.isKnownUser "" = false.
Proof.
  unfold UserMapping.isKnownUser, UserMapping.getUserDisplayName, UserMapping.getUserId.
  destruct (UserMapping.getUserByAddress addr) as [u|] eqn:Hu.
  - apply getUserByAddress_Some in Hu as [Hin _].
    pose proof (proj1 (Forall_forall _ _) USER_MAPPING_entries u Hin) as (Hn & Hi & _).
    split_and!; try done; split; (done || lia).
  - split_and!; try done. split; [done|lia].
Qed.

(** X13. Every user of the table is found by its own address, with its own
    name and number: the twenty addresses are pairwise different. *)
Theorem known_users_are_found u :
  u ∈ UserMapping.USER_MAPPING →
  UserMapping.getUserByAddress (UserMapping.address u) = Some u ∧
  UserMapping.getUserDisplayName (UserMapping.address u) = UserMapping.name u ∧
  UserMapping.getUserId (UserMapping.address u) = UserMapping.id u ∧
  UserMapping.isKnownUser (UserMapping.address u) = true.
Proof.
  intros Hin. apply list_elem_of_In in Hin. simpl in Hin.
  repeat (destruct Hin as [<-|Hin]; [by vm_compute|]). done.
Qed.

(** X14. The lookup compares addresses exactly, letter case included, whereas
    the pages compare addresses after [toLowerCase]: the lower-case
    spelling of every address of the table - the same account for the
    pages - is an unknown user here. *)
Theorem lookup_is_case_sensitive u :
  u ∈ UserMapping.USER_MAPPING →
  toLowerCase (toLowerCase (UserMapping.address u)) = toLowerCase (UserMapping.address u) ∧
  UserMapping.getUserByAddress (toLowerCase (UserMapping.address u)) = None ∧
  UserMapping.getUserDisplayName (toLowerCase (UserMapping.address u)) = "Unknown".
Proof.
  intros Hin. apply list_elem_of_In in Hin. simpl in Hin.
  repeat (destruct Hin as [<-|Hin]; [by vm_compute|]). done.
Qed.

(** ** What the pages show *)

Lemma Number_exact n : n < 2 ^ 53 → Number n = n.
Proof. intros H. unfold Number. by apply N.ltb_lt in H as ->. Qed.

Lemma effectivePledged_reachable c i lastKnown :
  reachable c →
  Frontend.effectivePledged (pledged (campaignAt (chain_state c) i))
    (claimed (campaignAt (chain_state c) i)) lastKnown
  = pledged (campaignAt (chain_state c) i).
Proof.
  intros Hr.
  unfold Frontend.effectivePledged.
  destruct (pledged (campaignAt (chain_state c) i) =? 0) eqn:Hz; simpl;
    [|by destruct (0 <? pledged (campaignAt (chain_state c) i)), lastKnown].
  destruct lastKnown as [k|]; [|done].
  destruct (claimed (campaignAt (chain_state c) i)) eqn:Hcl; [|done]. exfalso.
  apply N.eqb_eq in Hz.
  destruct (settlement_inv_reachable c Hr i) as (_ & _ & I3 & _).
  destruct (I3 Hcl) as (Hex & _ & Hg).
  pose proof (campaign_slots_reachable c Hr i) as Hs.
  unfold campaignAt in *.
  destruct (campaigns (chain_state c) !! i) as [cp|]; [|done]. simpl in *. lia.
Qed.

(** X15. The client keeps the last non-zero [pledged] it saw of a campaign, to
    show it should [withdraw] have zeroed the field. The contract never
    does: for a campaign read from any reachable state the amount the
    client shows is the stored [pledged], whatever it remembered. *)
Theorem effectivePledged_is_pledged c i lastKnown checksum :
  reachable c →
  let cp := campaignAt (chain_state c) i in
  Frontend.effectivePledged (pledged cp) (claimed cp) lastKnown = pledged cp ∧
  Frontend.pledged (campaign_view checksum (chain_state c) i lastKnown) = pledged cp.
Proof.
  intros Hr cp. subst cp. split; by apply effectivePledged_reachable.
Qed.

Lemma tier_outcome_err v idx rs e :
  tier_outcome v idx rs = Err e →
  e = BelowRewardMinimum ∨ e = RewardSoldOut ∨ e = ArithmeticPanic.
Proof.
  unfold tier_outcome. intros H.
  destruct (idx <? N.of_nat (length rs)) eqn:Hi; [|done].
  destruct (rs !! N.to_nat idx) as [r|] eqn:Hr.
  - repeat case_match; simplify_eq; auto.
  - apply lookup_ge_None in Hr. apply N.ltb_lt in Hi. lia.
Qed.

Ltac pledge_not_inactive H :=
  match type of H with
  | context [0 <? ?v] => destruct (0 <? v); simpl in H; [|done]
  end;
  match type of H with
  | context [tier_outcome ?v ?idx ?rs] =>
      let Ho := fresh "Ho" in
      destruct (tier_outcome v idx rs) eqn:Ho;
      [repeat case_match; simplify_eq
      |apply tier_outcome_err in Ho as [->| [->| ->]]; done]
  end.

Ltac view_fields :=
  unfold campaign_view;
  cbn [Frontend.startAt Frontend.endAt Frontend.goal Frontend.pledged
       Frontend.claimed Frontend.creator Frontend.id].

(** X16. A card always has a status: at every time one of "not started",
    "active" and "ended" holds, so the badge is never "Unknown". And read
    at the time of the block, with times below [2^53], the three agree
    with the contract's own checks: "active" exactly when [pledge] does
    not revert with "Campaign inactive", "ended" exactly when [refund]
    does not revert with "Campaign not ended". *)
Theorem card_status_matches_contract checksum s i lastKnown env :
  let v := campaign_view checksum s i lastKnown in
  let now := block_timestamp env in
  let cp := campaignAt s i in
  (∀ t, Frontend.getStatusBadge v t ≠ "Unknown") ∧
  (creator cp ≠ 0 → startAt cp < 2 ^ 53 → endAt cp < 2 ^ 53 →
   (∀ value idx, Frontend.isActive v now = false ↔
      execute env (Pledge value i idx) s = (Err CampaignInactive, s)) ∧
   (Frontend.isEnded v now = false ↔
      execute env (Refund i) s = (Err CampaignNotEnded, s)) ∧
   (Frontend.isNotStarted v now = false ↔ startAt cp ≤ now)).
Proof.
  intros v now cp. subst v now cp. split.
  - intros t. unfold Frontend.getStatusBadge, Frontend.isNotStarted,
      Frontend.isActive, Frontend.isEnded. view_fields.
    destruct (t <? Number (startAt (campaignAt s i))) eqn:H1; [done|].
    destruct (Number (startAt (campaignAt s i)) <=? t) eqn:H2; simpl.
    + destruct (t <=? Number (endAt (campaignAt s i))) eqn:H3; [done|].
      apply N.leb_gt in H3. apply N.ltb_lt in H3. rewrite H3.
      by destruct (Frontend.isGoalMet _).
    + bool_to_prop. lia.
  - intros Hex Hs He.
    unfold Frontend.isActive, Frontend.isEnded, Frontend.isNotStarted. view_fields.
    rewrite !Number_exact by done. split_and!.
    + intros value idx. rewrite execute_pledge. cbv zeta.
      apply N.eqb_neq in Hex. rewrite Hex.
      destruct ((startAt (campaignAt s i) <=? block_timestamp env)
                && (block_timestamp env <=? endAt (campaignAt s i))); simpl.
      * split; [done|]. intros H. exfalso. pledge_not_inactive H.
      * done.
    + rewrite execute_refund. cbv zeta.
      apply N.eqb_neq in Hex. rewrite Hex.
      destruct (endAt (campaignAt s i) <? block_timestamp env); simpl.
      * split; [done|]. repeat case_match; intros; simplify_eq.
      * done.
    + rewrite N.ltb_ge. done.
Qed.

(** X17. The list pages take "active" to end one second earlier than the
    contract does. At [time = endAt] [getCampaignStatus] already answers
    "success" or "failed", while on the chain the campaign is still open:
    a pledge is not rejected as inactive, and [withdraw] and [refund]
    revert with "Campaign not ended". At every other time "upcoming",
    "active" and the two final statuses are the contract's three phases. *)
Theorem page_status_at_end_time checksum s i lastKnown env :
  let v := campaign_view checksum s i lastKnown in
  let now := block_timestamp env in
  let cp := campaignAt s i in
  creator cp ≠ 0 → startAt cp < 2 ^ 53 → endAt cp < 2 ^ 53 →
  startAt cp < endAt cp →
  (now = endAt cp →
     (Frontend.getCampaignStatus v now = "success" ∨
      Frontend.getCampaignStatus v now = "failed") ∧
     Frontend.isActive v now = true ∧
     (∀ value idx, execute env (Pledge value i idx) s ≠ (Err CampaignInactive, s)) ∧
     execute env (Refund i) s = (Err CampaignNotEnded, s) ∧
     (msg_sender env = creator cp →
      execute env (Withdraw i) s = (Err CampaignNotEnded, s))) ∧
  (now ≠ endAt cp →
     (Frontend.getCampaignStatus v now = "upcoming" ↔ now < startAt cp) ∧
     (Frontend.getCampaignStatus v now = "active" ↔ Frontend.isActive v now = true) ∧
     (Frontend.getCampaignStatus v now = "success" ∨
      Frontend.getCampaignStatus v now = "failed" ↔ Frontend.isEnded v now = true)).
Proof.
  intros v now cp Hex Hs He Hw. subst v now cp.
  unfold Frontend.getCampaignStatus, Frontend.isActive, Frontend.isEnded. view_fields.
  rewrite !Number_exact by done. split.
  - intros Hnow. rewrite Hnow.
    assert ((endAt (campaignAt s i) <? startAt (campaignAt s i)) = false) as ->
      by (apply N.ltb_ge; lia).
    rewrite N.ltb_irrefl.
    assert ((startAt (campaignAt s i) <=? endAt (campaignAt s i)) = true) as ->
      by (apply N.leb_le; lia).
    rewrite N.leb_refl. split_and!.
    + destruct (goal (campaignAt s i) <=? _); [by left|by right].
    + done.
    + intros value idx. rewrite execute_pledge. cbv zeta. rewrite Hnow.
      apply N.eqb_neq in Hex. rewrite Hex.
      assert ((startAt (campaignAt s i) <=? endAt (campaignAt s i)) = true) as ->
        by (apply N.leb_le; lia).
      rewrite N.leb_refl. simpl.
      intros H. pledge_not_inactive H.
    + rewrite execute_refund. cbv zeta. rewrite Hnow, N.ltb_irrefl.
      apply N.eqb_neq in Hex. by rewrite Hex.
    + intros Hc. rewrite execute_withdraw. cbv zeta. rewrite Hnow, N.ltb_irrefl, Hc.
      apply N.eqb_neq in Hex. by rewrite Hex, N.eqb_refl.
  - intros Hnow.
    destruct (N.ltb_spec (block_timestamp env) (startAt (campaignAt s i))) as [H1|H1].
    + assert ((startAt (campaignAt s i) <=? block_timestamp env) = false) as ->
        by (apply N.leb_gt; lia).
      assert ((endAt (campaignAt s i) <? block_timestamp env) = false) as ->
        by (apply N.ltb_ge; lia).
      simpl. split_and!; split; try done; intros [?|?]; done.
    + apply N.leb_le in H1 as H1'. rewrite H1'. simpl.
      destruct (N.ltb_spec (block_timestamp env) (endAt (campaignAt s i))) as [H2|H2].
      * assert ((block_timestamp env <=? endAt (campaignAt s i)) = true) as ->
          by (apply N.leb_le; lia).
        assert ((endAt (campaignAt s i) <? block_timestamp env) = false) as ->
          by (apply N.ltb_ge; lia).
        split_and!; split; try done; try lia; intros [?|?]; done.
      * assert ((block_timestamp env <=? endAt (campaignAt s i)) = false) as ->
          by (apply N.leb_gt; lia).
        assert ((endAt (campaignAt s i) <? block_timestamp env) = true) as ->
          by (apply N.ltb_lt; lia).
        split_and!; split; try done; try lia;
          destruct (goal (campaignAt s i) <=? _); try done; intros _; tauto.
Qed.

(** X18. The labels "claimed" (creator's page) and "done" (contributor's page)
    are shown for a campaign whose [claimed] flag is set. On a reachable
    state, read no earlier than the last block, they only ever stand in
    for "success": the campaign has ended and met its goal. *)
Theorem settled_labels_stand_for_success c i lastKnown checksum time entry :
  reachable c →
  let cp := campaignAt (chain_state c) i in
  let v := campaign_view checksum (chain_state c) i lastKnown in
  chain_time c ≤ time → startAt cp < 2 ^ 53 → endAt cp < 2 ^ 53 →
  Frontend.campaign entry = Some v →
  (Frontend.getCreatorStatus v time = "claimed" ↔ claimed cp = true) ∧
  (Frontend.getContributorStatus entry time = "done" ↔ claimed cp = true) ∧
  (claimed cp = true → Frontend.getCampaignStatus v time = "success").
Proof.
  intros Hr cp v Ht Hs He Hv. subst cp v.
  assert (claimed (campaignAt (chain_state c) i) = true →
          Frontend.getCampaignStatus
            (campaign_view checksum (chain_state c) i lastKnown) time = "success")
    as Hsucc.
  { intros Hcl.
    destruct (settlement_inv_reachable c Hr i) as (_ & _ & I3 & _).
    destruct (I3 Hcl) as (Hex & Hend & Hg).
    pose proof (campaign_slots_reachable c Hr i) as Hsl.
    assert (startAt (campaignAt (chain_state c) i)
            < endAt (campaignAt (chain_state c) i)) as Hw.
    { unfold campaignAt in *.
      by destruct (campaigns (chain_state c) !! i) as [cp|]; [apply Hsl|]. }
    unfold Frontend.getCampaignStatus. view_fields.
    rewrite effectivePledged_reachable by done.
    rewrite !Number_exact by done.
    assert ((time <? startAt (campaignAt (chain_state c) i)) = false) as ->
      by (apply N.ltb_ge; lia).
    assert ((time <? endAt (campaignAt (chain_state c) i)) = false) as ->
      by (apply N.ltb_ge; lia).
    by apply N.leb_le in Hg as ->. }
  split_and!; [| |done].
  - unfold Frontend.getCreatorStatus. view_fields.
    destruct (claimed (campaignAt (chain_state c) i)) eqn:Hcl; [done|].
    split; [|done]. unfold Frontend.getCampaignStatus.
    repeat case_match; done.
  - unfold Frontend.getContributorStatus. rewrite Hv. view_fields.
    destruct (claimed (campaignAt (chain_state c) i)) eqn:Hcl; [done|].
    split; [|done]. cbv zeta. unfold Frontend.getCampaignStatus.
    repeat case_match; simplify_eq; done.
Qed.

(** X19. The two buttons of the campaign dialog against the calls behind them,
    on a reachable state read at the time of the block, for a client
    whose creator test agrees with the contract's and an account that can
    receive ether. "Withdraw Funds" is shown exactly when [withdraw] would
    succeed. "Refund" is shown exactly when [refund] would succeed and the
    caller is not the creator: a creator who contributed to their own
    failed campaign can call [refund] but is not offered the button. *)
Theorem buttons_match_contract c i lastKnown checksum env userAddress :
  reachable c →
  let s := chain_state c in
  let cp := campaignAt s i in
  let v := campaign_view checksum s i lastKnown in
  let now := block_timestamp env in
  let me := Frontend.isCreator userAddress v in
  creator cp ≠ 0 → endAt cp < 2 ^ 53 →
  me = (msg_sender env =? creator cp) →
  payout_ok env = true →
  (Frontend.withdrawButton me v now = true ↔
     ∃ rc s', execute env (Withdraw i) s = (Ok rc, s')) ∧
  (Frontend.refundButton me v now (getUserContribution s i (msg_sender env)) = true ↔
     msg_sender env ≠ creator cp ∧
     ∃ rc s', execute env (Refund i) s = (Ok rc, s')).
Proof.
  intros Hr s cp v now me Hex He Hme Hpay. subst me. rewrite Hme. clear Hme.
  subst s cp v now.
  pose proof (refund_no_underflow c i (msg_sender env) Hr) as Hle.
  unfold Frontend.withdrawButton, Frontend.refundButton, Frontend.isEnded,
    Frontend.isGoalMet, getUserContribution. view_fields.
  rewrite effectivePledged_reachable by done.
  rewrite Number_exact by done.
  rewrite execute_withdraw, execute_refund. cbv zeta.
  apply N.eqb_neq in Hex as Hex'. rewrite Hex', Hpay. simpl.
  apply N.leb_le in Hle as ->. simpl.
  destruct (N.eqb_spec (msg_sender env) (creator (campaignAt (chain_state c) i)))
    as [Heq|Hne]; simpl.
  - split.
    + destruct (endAt (campaignAt (chain_state c) i) <? block_timestamp env); simpl;
        [|split; [done|by intros (? & ? & ?)]].
      destruct (goal (campaignAt (chain_state c) i)
                <=? pledged (campaignAt (chain_state c) i)); simpl;
        [|split; [done|by intros (? & ? & ?)]].
      destruct (claimed (campaignAt (chain_state c) i)); simpl;
        [split; [done|by intros (? & ? & ?)]|].
      split; [eauto|done].
    + split; [done|]. by intros [? _].
  - split.
    + split; [done|by intros (? & ? & ?)].
    + destruct (endAt (campaignAt (chain_state c) i) <? block_timestamp env); simpl;
        [|split; [done|by intros (_ & ? & ? & ?)]].
      destruct (N.leb_spec (goal (campaignAt (chain_state c) i))
                  (pledged (campaignAt (chain_state c) i))) as [Hg|Hg]; simpl.
      * assert ((pledged (campaignAt (chain_state c) i)
                 <? goal (campaignAt (chain_state c) i)) = false) as ->
          by (apply N.ltb_ge; lia).
        simpl. split; [done|by intros (_ & ? & ? & ?)].
      * assert ((pledged (campaignAt (chain_state c) i)
                 <? goal (campaignAt (chain_state c) i)) = true) as ->
          by (apply N.ltb_lt; lia).
        simpl.
        destruct (0 <? pledgedAmountOf (chain_state c) i (msg_sender env)); simpl;
          [|split; [done|by intros (_ & ? & ? & ?)]].
        split; [eauto|done].
Qed.

(** X20. The checks [handlePledge] makes before sending mirror the tier clause
    of [pledge]: on the tiers as the contract holds them, the client
    throws exactly when the contract would revert there, and with the
    same message; what it sends otherwise passes the clause, and the
    index sent for "no tier" ([Number.MAX_SAFE_INTEGER]) claims none. *)
Theorem client_checks_mirror_tier_clause amount selectedReward rewards :
  Forall (λ r, quantityAvailable r ≤ MAX_UINT256) rewards →
  N.of_nat (length rewards) ≤ MAX_SAFE_INTEGER →
  match Frontend.handlePledge_rewardIndex amount selectedReward rewards with
  | inl message =>
      (0 ≤ selectedReward)%Z ∧
      tier_outcome amount (Z.to_N selectedReward) rewards = Err (Revert message)
  | inr rewardIndex =>
      ∃ o, tier_outcome amount rewardIndex rewards = Ok o ∧
           ((selectedReward < 0)%Z → o = None)
  end.
Proof.
  intros Hq Hlen. unfold Frontend.handlePledge_rewardIndex.
  destruct (Z.leb_spec 0 selectedReward) as [Hsel|Hsel].
  - assert (N.to_nat (Z.to_N selectedReward) = Z.to_nat selectedReward) as Hidx by lia.
    destruct (rewards !! Z.to_nat selectedReward) as [r|] eqn:Hr.
    + pose proof (lookup_lt_Some _ _ _ Hr) as Hlt.
      assert ((Z.to_N selectedReward <? N.of_nat (length rewards)) = true) as Hin
        by (apply N.ltb_lt; lia).
      rewrite Forall_forall in Hq.
      pose proof (Hq r (list_elem_of_lookup_2 _ _ _ Hr)) as Hqr.
      assert (tier_outcome amount (Z.to_N selectedReward) rewards =
              if minimumContribution r <=? amount then
                if 0 <? quantityAvailable r then
                  if claimedCount r <? quantityAvailable r then
                    Ok (Some (<[N.to_nat (Z.to_N selectedReward) :=
                                with_claimedCount (claimedCount r + 1) r]> rewards))
                  else Err RewardSoldOut
                else Ok None
              else Err BelowRewardMinimum) as Hto.
      { unfold tier_outcome. rewrite Hin, Hidx, Hr.
        destruct (minimumContribution r <=? amount); [|done].
        destruct (0 <? quantityAvailable r); [|done].
        destruct (N.ltb_spec (claimedCount r) (quantityAvailable r)); [|done].
        assert ((claimedCount r + 1 <=? MAX_UINT256) = true) as ->
          by (apply N.leb_le; lia).
        done. }
      rewrite (N.ltb_antisym _ amount), (N.leb_antisym (claimedCount r)).
      destruct (minimumContribution r <=? amount); cbn [negb andb];
        [|by rewrite Hto].
      destruct (0 <? quantityAvailable r); cbn [negb andb].
      * destruct (claimedCount r <? quantityAvailable r); cbn [negb];
          [|by rewrite Hto].
        rewrite Hto. eexists. split; [done|lia].
      * rewrite Hto. eexists. split; [done|lia].
    + apply lookup_ge_None in Hr. unfold tier_outcome.
      assert ((Z.to_N selectedReward <? N.of_nat (length rewards)) = false) as ->
        by (apply N.ltb_ge; lia).
      eexists. split; [done|lia].
  - unfold tier_outcome.
    assert ((MAX_SAFE_INTEGER <? N.of_nat (length rewards)) = false) as ->
      by (apply N.ltb_ge; lia).
    eexists. split; done.
Qed.

(** * The further theorems at concrete inputs *)

Lemma later_of_run_from c0 c txs :
  later_of c0 c → chronological (chain_time c) txs = true →
  later_of c0 (foldl (λ c tx, apply_tx tx c) c txs).
Proof.
  revert c. induction txs as [|tx txs IH]; intros c Hc Ht; simpl in *; [done|].
  apply andb_true_iff in Ht as [Ht1 Ht2]. apply N.leb_le in Ht1.
  apply IH.
  - by constructor.
  - by rewrite apply_tx_eq.
Qed.

Lemma later_of_run n txs :
  chronological (chain_time (run (take n txs))) (drop n txs) = true →
  later_of (run (take n txs)) (run txs).
Proof.
  intros H. rewrite <-(take_drop n txs) at 2. unfold run at 2.
  rewrite foldl_app. apply later_of_run_from; [constructor|done].
Qed.

(** The owner adds the tier of the first history. *)
Lemma addReward_contract_witness :
  let s := chain_state (run (take 1 history_goal_met)) in
  let s' := chain_state (run (take 2 history_goal_met)) in
  (∃ rc s'', execute (mkEnv owner 1 true) (AddReward 1 "R1" "Reward 1" 50 1) s
             = (Ok rc, s'')) ∧
  getRewards s' 1 = (getRewards s 1 ++ [mkReward "R1" "Reward 1" 50 1 0])%list.
Proof.
  destruct (addReward_contract (mkEnv owner 1 true) 1 "R1" "Reward 1" 50 1
              (chain_state (run (take 1 history_goal_met))))
    as (_ & _ & _ & H4 & H5).
  split.
  - apply H4; vm_compute; (reflexivity || discriminate).
  - apply (H5 (mkReceipt None [] [])). vm_compute. reflexivity.
Defined.

(** The first pledge of the first history. *)
Lemma pledge_contract_witness :
  let s := chain_state (run (take 2 history_goal_met)) in
  let s' := chain_state (run (take 3 history_goal_met)) in
  getUserContribution s' 1 alice = getUserContribution s 1 alice + 60 ∧
  totalContributedOf s' alice = totalContributedOf s alice + 60 ∧
  execute (mkEnv alice 5 true) (Pledge 60 1 0) s = (Err CampaignInactive, s).
Proof.
  destruct (pledge_contract (mkEnv alice 10 true) 60 1 0
              (chain_state (run (take 2 history_goal_met))))
    as (_ & _ & _ & H4).
  destruct (H4 (mkReceipt None [RewardClaimed 1 alice 0; Pledged 1 alice 60] [])
              (chain_state (run (take 3 history_goal_met))))
    as (_ & _ & _ & _ & H5 & _ & H7 & _).
  { vm_compute. reflexivity. }
  destruct (pledge_contract (mkEnv alice 5 true) 60 1 0
              (chain_state (run (take 2 history_goal_met))))
    as (_ & H2 & _).
  split_and!; [exact H5|exact H7|].
  apply H2; [vm_compute; discriminate|left; vm_compute; reflexivity].
Defined.

(** A window that lies wholly in the past is rejected by the third check,
    never by the fourth. *)
Lemma createCampaign_end_check_is_dead_witness :
  let r := (execute (mkEnv owner 2000 true)
              (CreateCampaign 100 10 1000 "ipfs://meta") genesis).1 in
  r = Err WindowNotFuture_start ∧ r ≠ Err WindowNotFuture_end.
Proof.
  split; [vm_compute; reflexivity|].
  apply (createCampaign_end_check_is_dead (mkEnv owner 2000 true)
           100 10 1000 "ipfs://meta" genesis).
Defined.

(** From its creation to its settlement in the first history. *)
Lemma campaign_record_is_stable_witness :
  let cp := campaignAt (chain_state (run (take 1 history_goal_met))) 1 in
  let cp' := campaignAt (chain_state (run history_goal_met)) 1 in
  creator cp' = creator cp ∧ goal cp' = goal cp ∧
  startAt cp' = startAt cp ∧ endAt cp' = endAt cp ∧
  metadataURI cp' = metadataURI cp ∧
  pledged cp ≤ pledged cp' ∧
  (claimed cp = true → claimed cp' = true).
Proof.
  apply (campaign_record_is_stable (run (take 1 history_goal_met))
           (run history_goal_met) 1).
  - apply reachable_run. reflexivity.
  - apply (later_of_run 1 history_goal_met). vm_compute. reflexivity.
  - vm_compute. discriminate.
Defined.

Lemma stored_campaigns_witness :
  let s := chain_state (run history_goal_met) in
  (∀ id, is_Some (campaigns s !! id) ↔ 1 ≤ id ≤ campaignCount s) ∧
  getRewards s 2 = [] ∧ getUserContribution s 2 alice = 0.
Proof.
  destruct (stored_campaigns (run history_goal_met) history_goal_met_reachable)
    as (H1 & _ & H3).
  split; [exact H1|].
  destruct (H3 2) as [Hr Hc]; [vm_compute; reflexivity|].
  split; [exact Hr|exact (Hc alice)].
Defined.

Lemma total_contributed_is_sum_of_contributions_witness :
  let c := run (take 5 history_goal_met) in
  totalContributedOf (chain_state c) alice
    = contributions_of alice (pledgedAmounts (chain_state c)) ∧
  ∀ id, getUserContribution (chain_state c) id alice
        ≤ totalContributedOf (chain_state c) alice.
Proof.
  apply (total_contributed_is_sum_of_contributions (run (take 5 history_goal_met)) alice).
  apply reachable_run. reflexivity.
Defined.

(** Alice after her refund in the second history: 30 in, 30 out, nothing
    recorded. *)
Lemma recorded_amount_is_net_contribution_witness :
  let c := run history_goal_missed in
  pledged_by 1 alice (chain_history c)
    = refunded_to 1 alice (chain_history c) + getUserContribution (chain_state c) 1 alice ∧
  refunded_to 1 alice (chain_history c) ≤ pledged_by 1 alice (chain_history c).
Proof.
  apply (recorded_amount_is_net_contribution (run history_goal_missed) 1 alice).
  apply history_goal_missed_reachable.
Defined.

Lemma received_is_paid_plus_outstanding_witness :
  let c := run (take 5 history_goal_met) in
  received (chain_history c)
    = paid_out (chain_history c) + outstanding (chain_state c) ∧
  paid_out (chain_history c) ≤ received (chain_history c).
Proof.
  apply (received_is_paid_plus_outstanding (run (take 5 history_goal_met))).
  apply reachable_run. reflexivity.
Defined.

(** The tier of the first history, from its addition to the end. *)
Lemma tiers_are_append_only_witness :
  let c := run (take 2 history_goal_met) in
  let c' := run history_goal_met in
  ∃ r', getRewards (chain_state c') 1 !! 0%nat = Some r' ∧
        title r' = "R1" ∧ description r' = "Reward 1" ∧
        minimumContribution r' = 50 ∧ quantityAvailable r' = 1 ∧
        0 ≤ claimedCount r'.
Proof.
  destruct (tiers_are_append_only (run (take 2 history_goal_met))
              (run history_goal_met) 1) as [H _].
  - apply reachable_run. reflexivity.
  - apply (later_of_run 2 history_goal_met). vm_compute. reflexivity.
  - apply (H 0%nat (mkReward "R1" "Reward 1" 50 1 0)). vm_compute. reflexivity.
Defined.

(** After the first pledge of the first history the owner can no longer
    add a tier. *)
Lemma no_tier_after_first_pledge_witness :
  let c := run history_tier_sold_out in
  execute (mkEnv owner 10 true) (AddReward 1 "R2" "Reward 2" 10 5) (chain_state c)
    = (Err WindowAlreadyOpen, chain_state c) ∧
  length (getRewards (chain_state (run history_goal_met)) 1)
    = length (getRewards (chain_state c) 1).
Proof.
  destruct (no_tier_after_first_pledge (run history_tier_sold_out) 1) as [H1 H2].
  - apply history_tier_sold_out_reachable.
  - vm_compute. lia.
  - split.
    + apply (H1 (mkEnv owner 10 true) "R2" "Reward 2" 10 5). vm_compute. discriminate.
    + apply H2. apply (later_of_run 3 history_goal_met). vm_compute. reflexivity.
Defined.

Lemma known_users_are_found_witness :
  let u := UserMapping.user 7 "User 7" "0x976EA74026E726554dB657fA54763abd0C3a0aa9" in
  UserMapping.getUserByAddress (UserMapping.address u) = Some u ∧
  UserMapping.getUserDisplayName (UserMapping.address u) = UserMapping.name u ∧
  UserMapping.getUserId (UserMapping.address u) = UserMapping.id u ∧
  UserMapping.isKnownUser (UserMapping.address u) = true.
Proof.
  apply (known_users_are_found
           (UserMapping.user 7 "User 7" "0x976EA74026E726554dB657fA54763abd0C3a0aa9")).
  apply list_elem_of_In. vm_compute. tauto.
Defined.

Lemma lookup_is_case_sensitive_witness :
  UserMapping.getUserDisplayName "0x976ea74026e726554db657fa54763abd0c3a0aa9" = "Unknown".
Proof.
  destruct (lookup_is_case_sensitive
              (UserMapping.user 7 "User 7" "0x976EA74026E726554dB657fA54763abd0C3a0aa9"))
    as (_ & _ & H).
  - apply list_elem_of_In. vm_compute. tauto.
  - exact H.
Defined.

(** The settled campaign of the first history, by a client that remembers
    an older amount. *)
Lemma effectivePledged_is_pledged_witness :
  let cp := campaignAt (chain_state (run history_goal_met)) 1 in
  Frontend.effectivePledged (pledged cp) (claimed cp) (Some 60) = pledged cp ∧
  Frontend.pledged (campaign_view (λ _, "0x") (chain_state (run history_goal_met)) 1 (Some 60))
    = pledged cp.
Proof.
  apply (effectivePledged_is_pledged (run history_goal_met) 1 (Some 60) (λ _, "0x")).
  apply history_goal_met_reachable.
Defined.

(** The campaign of the first history in the last second of its window. *)
Lemma card_status_matches_contract_witness :
  let s := chain_state (run (take 5 history_goal_met)) in
  let v := campaign_view (λ _, "0x") s 1 None in
  Frontend.isActive v 1000 = true ∧ Frontend.isEnded v 1000 = false ∧
  execute (mkEnv alice 1000 true) (Refund 1) s = (Err CampaignNotEnded, s).
Proof.
  destruct (card_status_matches_contract (λ _, "0x")
              (chain_state (run (take 5 history_goal_met))) 1 None
              (mkEnv alice 1000 true)) as [_ H].
  destruct H as (_ & H2 & _); try (vm_compute; (reflexivity || discriminate)).
  split_and!; [vm_compute; reflexivity..|].
  apply H2. vm_compute. reflexivity.
Defined.

Lemma page_status_at_end_time_witness :
  let s := chain_state (run (take 5 history_goal_met)) in
  let v := campaign_view (λ _, "0x") s 1 None in
  Frontend.getCampaignStatus v 1000 = "success" ∧
  Frontend.isActive v 1000 = true ∧
  execute (mkEnv owner 1000 true) (Withdraw 1) s = (Err CampaignNotEnded, s).
Proof.
  destruct (page_status_at_end_time (λ _, "0x")
              (chain_state (run (take 5 history_goal_met))) 1 None
              (mkEnv owner 1000 true)) as [H _];
    try (vm_compute; (reflexivity || discriminate)).
  destruct H as (_ & H2 & _ & _ & H5); [vm_compute; reflexivity|].
  split_and!; [vm_compute; reflexivity|exact H2|].
  apply H5. vm_compute. reflexivity.
Defined.

Lemma settled_labels_stand_for_success_witness :
  let v := campaign_view (λ _, "0x") (chain_state (run history_goal_met)) 1 None in
  Frontend.getCreatorStatus v 1001 = "claimed" ∧
  Frontend.getCampaignStatus v 1001 = "success".
Proof.
  destruct (settled_labels_stand_for_success (run history_goal_met) 1 None (λ _, "0x")
              1001
              (Frontend.mkUIUserContribution 1
                 (Some (campaign_view (λ _, "0x")
                          (chain_state (run history_goal_met)) 1 None))
                 120 None))
    as (H1 & _ & H3).
  - apply history_goal_met_reachable.
  - vm_compute. discriminate.
  - vm_compute. reflexivity.
  - vm_compute. reflexivity.
  - reflexivity.
  - split; [apply H1|apply H3]; vm_compute; reflexivity.
Defined.

(** The owner of the first history, connected under a lower-case spelling
    of the address, is offered the withdrawal once the campaign has ended;
    the call then succeeds. *)
Lemma buttons_match_contract_witness :
  let book := λ a : N,
    default "" (UserMapping.address <$> UserMapping.USER_MAPPING !! N.to_nat a) in
  let s := chain_state (run (take 5 history_goal_met)) in
  let v := campaign_view book s 1 None in
  let me := Frontend.isCreator (Some (toLowerCase (book owner))) v in
  Frontend.withdrawButton me v 1001 = true ∧
  ∃ rc s', execute (mkEnv owner 1001 true) (Withdraw 1) s = (Ok rc, s').
Proof.
  destruct (buttons_match_contract (run (take 5 history_goal_met)) 1 None
              (λ a : N, default ""
                 (UserMapping.address <$> UserMapping.USER_MAPPING !! N.to_nat a))
              (mkEnv owner 1001 true)
              (Some (toLowerCase
                 (default "" (UserMapping.address <$>
                                UserMapping.USER_MAPPING !! N.to_nat owner)))))
    as [H _];
    try (vm_compute; (reflexivity || discriminate)).
  - apply reachable_run. reflexivity.
  - split; [vm_compute; reflexivity|].
    apply H. vm_compute. reflexivity.
Defined.

(** The tier of the first history once its only unit is taken: the client
    refuses the pledge with the contract's own message. *)
Lemma client_checks_mirror_tier_clause_witness :
  let rewards := getRewards (chain_state (run history_tier_sold_out)) 1 in
  Frontend.handlePledge_rewardIndex 60 0 rewards = inl "Reward sold out" ∧
  tier_outcome 60 0 rewards = Err RewardSoldOut.
Proof.
  split; [vm_compute; reflexivity|].
  pose proof (client_checks_mirror_tier_clause 60 0
                (getRewards (chain_state (run history_tier_sold_out)) 1)) as H.
  assert (Frontend.handlePledge_rewardIndex 60 0
            (getRewards (chain_state (run history_tier_sold_out)) 1)
          = inl "Reward sold out") as E by (vm_compute; reflexivity).
  rewrite E in H. apply H.
  - assert (getRewards (chain_state (run history_tier_sold_out)) 1
            = [mkReward "R1" "Reward 1" 50 1 1]) as -> by (vm_compute; reflexivity).
    constructor; [|constructor]. vm_compute. discriminate.
  - vm_compute. discriminate.
Defined.
